(** * In-memory catalog: lazy sliced views and full-text search

    A shallow embedding of [catalog_server/in_memory_catalog.py].

    - Python integers are unbounded: they are [Z].
    - A raised exception is the [Err] branch of [result].
    - A Python [dict] is an insertion-ordered association list whose keys
      are pairwise distinct ([dict_wf]).
    - An iterator is modelled by the list it yields when it is consumed
      to the end, or by the exception that consuming it raises.
    - Strings are sequences of code points below 256. *)

From Stdlib Require Import ZArith Ascii String List Lia.
From Equations Require Import Equations.
From stdpp Require Import base option list strings gmap.

Local Open Scope Z_scope.
Set Warnings "-register-all".

(** ** Exceptions and the error monad *)

Inductive exception : Set :=
  | IndexError
  | KeyError
  | NotImplementedError
  | StopIteration
  | TypeError
  | ValueError
  | OverflowError
  | AttributeError
  | UnsupportedQuery.

Inductive result (A : Type) : Type :=
  | Ok (a : A)
  | Err (e : exception).
Arguments Ok {A} a.
Arguments Err {A} e.

#[global] Instance result_ret : MRet result := fun A a => Ok a.
#[global] Instance result_bind : MBind result := fun A B f m =>
  match m with
  | Ok a => f a
  | Err e => Err e
  end.
#[global] Instance result_fmap : FMap result := fun A B f m =>
  match m with
  | Ok a => Ok (f a)
  | Err e => Err e
  end.

(** [for x in xs: ...] with a body that may raise: the bodies run in
    order and the first exception ends the loop. *)
Fixpoint for_each {A B : Type} (f : A -> result B) (xs : list A)
  : result (list B) :=
  match xs with
  | [] => Ok []
  | x :: xs' => y ← f x; ys ← for_each f xs'; Ok (y :: ys)
  end.

(** ** Built-ins *)

(** [sys.maxsize] of a 64-bit CPython. *)
Definition sys_maxsize : Z := 2 ^ 63 - 1.

(** A [dict] with string keys, in insertion order. *)
Definition dict (V : Type) : Type := list (string * V).

Definition dict_keys {V} (d : dict V) : list string := d.*1.

(** The invariants of a real [dict]: distinct keys, at most
    [sys.maxsize] entries. *)
Definition dict_wf {V} (d : dict V) : Prop :=
  NoDup (dict_keys d) ∧ Z.of_nat (length d) <= sys_maxsize.

(** [d[key]] *)
Fixpoint dict_getitem {V} (d : dict V) (key : string) : result V :=
  match d with
  | [] => Err KeyError
  | (k, v) :: d' => if String.eqb k key then Ok v else dict_getitem d' key
  end.

(** [d[key] = value]: an existing key keeps its position, a new one
    goes last. *)
Fixpoint dict_setitem {V} (d : dict V) (key : string) (value : V) : dict V :=
  match d with
  | [] => [(key, value)]
  | (k, v) :: d' =>
      if String.eqb k key then (k, value) :: d'
      else (k, v) :: dict_setitem d' key value
  end.

(** [itertools.islice(iterable, start, stop)], consumed to the end.
    An index that is negative or above [sys.maxsize] is a [ValueError];
    an absent start is 0 and an absent stop is the end. *)
Definition islice_index_ok (i : option Z) : bool :=
  match i with
  | None => true
  | Some i => (0 <=? i) && (i <=? sys_maxsize)
  end.

Definition islice {A} (iterable : list A) (start stop : option Z)
  : result (list A) :=
  if islice_index_ok start && islice_index_ok stop then
    let start := Z.to_nat (default 0 start) in
    match stop with
    | None => Ok (drop start iterable)
    | Some stop => Ok (take (Z.to_nat stop - start)%nat (drop start iterable))
    end
  else Err ValueError.

(** [next(iterator)] on a fresh iterator. *)
Definition next {A} (iterator : list A) : result A :=
  match iterator with
  | [] => Err StopIteration
  | x :: _ => Ok x
  end.

(** The checks the built-in [len] makes on what [__len__] returned: a
    negative integer is a [ValueError], one above [sys.maxsize] an
    [OverflowError]. *)
Definition len_check (n : Z) : result Z :=
  if n <? 0 then Err ValueError
  else if n >? sys_maxsize then Err OverflowError
  else Ok n.

(** ** Interval arithmetic *)

(** A [slice(start, stop, step)] object with integer or absent fields. *)
Record slice : Set := Slice {
  slice_start : option Z;
  slice_stop : option Z;
  slice_step : option Z
}.

Definition _slice_to_interval (index : slice) : result (Z * option Z) :=
  start ← match slice_start index with
          | None => Ok 0
          | Some s => if s <? 0 then Err NotImplementedError else Ok s
          end;
  _ ← match slice_stop index with
      | Some t => if t <? 0 then Err NotImplementedError else Ok tt
      | None => Ok tt
      end;
  let stop := slice_stop index in
  Ok (start, stop).

(** [b_stop + a_start] with [a_start = None] is a [TypeError]. *)
Definition add_to_optional (x : Z) (y : option Z) : result Z :=
  match y with
  | Some y => Ok (x + y)
  | None => Err TypeError
  end.

Definition _compose_intervals (a b : option Z * option Z)
  : result (Z * option Z) :=
  let '(a_start, a_stop) := a in
  let '(b_start, b_stop) := b in
  let start :=
    match a_start with
    | None => match b_start with
              | None => 0
              | Some b_start => b_start
              end
    | Some a_start => match b_start with
                      | None => a_start
                      | Some b_start => a_start + b_start
                      end
    end in
  stop ← match a_stop with
         | None => match b_stop with
                   | None => Ok None
                   | Some b_stop => Some <$> add_to_optional b_stop a_start
                   end
         | Some a_stop => match b_stop with
                          | None => Ok (Some a_stop)
                          | Some b_stop =>
                              Some <$> (Z.min a_stop <$> add_to_optional b_stop a_start)
                          end
         end;
  Ok (start, stop).

(** ** Metadata *)

(** A metadata value: a string, a mapping with string keys, a sequence,
    or anything else (numbers, [None], ...). *)
Inductive mvalue : Type :=
  | MStr (s : string)
  | MDict (d : list (string * mvalue))
  | MList (l : list mvalue)
  | MOther.

(** ** Catalog *)

Module Catalog.

Record t (V : Type) : Type := Build {
  _mapping : dict V;
  _metadata : dict mvalue
}.
Arguments Build {V} _ _.
Arguments _mapping {V} _.
Arguments _metadata {V} _.

Section methods.
Context {V : Type}.

(** [metadata or {}] *)
Definition __init__ (mapping : dict V) (metadata : option (dict mvalue)) : t V :=
  Build mapping
    match metadata with
    | None | Some [] => []
    | Some md => md
    end.

Definition __getitem__ (self : t V) (key : string) : result V :=
  dict_getitem (_mapping self) key.

Definition __iter__ (self : t V) : list string :=
  dict_keys (_mapping self).

Definition __len__ (self : t V) : Z :=
  Z.of_nat (length (_mapping self)).

Definition _keys_slice (self : t V) (start stop : option Z)
  : result (list string) :=
  islice (dict_keys (_mapping self)) start stop.

Definition _items_slice (self : t V) (start stop : option Z)
  : result (list (string * V)) :=
  keys ← _keys_slice self start stop;
  for_each (λ key, value ← dict_getitem (_mapping self) key; Ok (key, value)) keys.

Definition _item_by_index (self : t V) (index : Z) : result (string * V) :=
  if index >=? __len__ self then Err IndexError
  else
    key ← islice (dict_keys (_mapping self)) (Some index) (Some (1 + index)) ≫= next;
    value ← dict_getitem (_mapping self) key;
    Ok (key, value).

(** [collections.abc.Mapping.items]: every key of [__iter__] with
    [self[key]]. *)
Definition items (self : t V) : result (list (string * V)) :=
  for_each (λ key, value ← __getitem__ self key; Ok (key, value)) (__iter__ self).

End methods.

End Catalog.

(** ** Lazy views *)

Inductive sequence_class : Set :=
  | CatalogKeysSequence
  | CatalogItemsSequence
  | CatalogValuesSequence.

(** Whatever can stand as a view's ancestor: a catalog, or a view with
    its own ancestor, start and stop. *)
Inductive indexable (V : Type) : Type :=
  | OfCatalog (c : Catalog.t V)
  | Sequence (cls : sequence_class) (_ancestor : indexable V)
             (_start : Z) (_stop : option Z).
Arguments OfCatalog {V} c.
Arguments Sequence {V} cls _ancestor _start _stop.

(** What a view yields or returns at an integer index. *)
Inductive element (V : Type) : Type :=
  | Key (key : string)
  | Value (value : V)
  | Item (key : string) (value : V).
Arguments Key {V} key.
Arguments Value {V} value.
Arguments Item {V} key value.

(** What [obj[index]] may be asked with: an integer, a slice, a string,
    or some other hashable object. *)
Inductive index : Set :=
  | IInt (i : Z)
  | ISlice (s : slice)
  | IKey (key : string)
  | IOther.

Module CatalogBaseSequence.

Section methods.
Context {V : Type}.

(** [int(start or 0)] and [int(stop)] when present. *)
Definition __init__ (cls : sequence_class) (ancestor : indexable V)
    (start : option Z) (stop : option Z) : indexable V :=
  Sequence cls ancestor (default 0 start) stop.

(** [__len__] returns its integer unchecked; the [len(...)] inside a
    view's [__len__] checks what the ancestor returned. *)
Fixpoint __len__ (self : indexable V) : result Z :=
  match self with
  | OfCatalog c => Ok (Catalog.__len__ c)
  | Sequence _ ancestor start stop =>
      n ← __len__ ancestor ≫= len_check;
      let len_ := n - start in
      match stop with
      | Some stop =>
          if len_ >? stop - start then Ok (stop - start) else Ok len_
      | None => Ok len_
      end
  end.

(** The built-in [len(self)]. *)
Definition len (self : indexable V) : result Z :=
  __len__ self ≫= len_check.

Fixpoint _item_by_index (self : indexable V) (index : Z)
  : result (string * V) :=
  match self with
  | OfCatalog c => Catalog._item_by_index c index
  | Sequence _ ancestor start _ => _item_by_index ancestor (index + start)
  end.

Fixpoint _items_slice (self : indexable V) (start stop : option Z)
  : result (list (string * V)) :=
  match self with
  | OfCatalog c => Catalog._items_slice c start stop
  | Sequence _ ancestor _start _stop =>
      '(agg_start, agg_stop) ← _compose_intervals (Some _start, _stop) (start, stop);
      _items_slice ancestor (Some agg_start) agg_stop
  end.

Fixpoint _keys_slice (self : indexable V) (start stop : option Z)
  : result (list string) :=
  match self with
  | OfCatalog c => Catalog._keys_slice c start stop
  | Sequence _ ancestor _start _stop =>
      '(agg_start, agg_stop) ← _compose_intervals (Some _start, _stop) (start, stop);
      _keys_slice ancestor (Some agg_start) agg_stop
  end.

(** [__iter__] of the three subclasses, consumed to the end. A
    catalog iterates over its keys. *)
Definition __iter__ (self : indexable V) : result (list (element V)) :=
  match self with
  | OfCatalog c => Ok (map Key (Catalog.__iter__ c))
  | Sequence CatalogKeysSequence ancestor start stop =>
      keys ← _keys_slice ancestor (Some start) stop;
      Ok (map Key keys)
  | Sequence CatalogItemsSequence ancestor start stop =>
      items ← _items_slice ancestor (Some start) stop;
      Ok (map (λ kv : string * V, Item kv.1 kv.2) items)
  | Sequence CatalogValuesSequence ancestor start stop =>
      items ← _items_slice ancestor (Some start) stop;
      Ok (map (λ kv : string * V, Value kv.2) items)
  end.

(** The projection a subclass applies to [(key, value)]. *)
Definition project (cls : sequence_class) (kv : string * V) : element V :=
  match cls with
  | CatalogKeysSequence => Key kv.1
  | CatalogItemsSequence => Item kv.1 kv.2
  | CatalogValuesSequence => Value kv.2
  end.

(** [self[index]]. A view of any of the three subclasses gives an
    element for an integer, a view of its own class over itself for a
    slice, and a [TypeError] for anything else. A catalog gives the
    value at a key; a slice cannot be looked up in a dict (it is not
    hashable: [TypeError]), and no other index is among its keys, which
    are strings. *)
Definition __getitem__ (self : indexable V) (i : index)
  : result (element V + indexable V) :=
  match self with
  | OfCatalog c =>
      match i with
      | IKey key => value ← Catalog.__getitem__ c key; Ok (inl (Value value))
      | ISlice _ => Err TypeError
      | _ => Err KeyError
      end
  | Sequence cls _ _ _ =>
      match i with
      | IInt i =>
          kv ← _item_by_index self i;
          Ok (inl (project cls kv))
      | ISlice s =>
          '(start, stop) ← _slice_to_interval s;
          Ok (inr (__init__ cls self (Some start) stop))
      | _ => Err TypeError
      end
  end.

End methods.

End CatalogBaseSequence.

(** The properties [Catalog.keys_indexer], [Catalog.items_indexer] and
    [Catalog.values_indexer]: a fresh unbounded view over the catalog. *)
Section indexers.
Context {V : Type}.

Definition keys_indexer (self : Catalog.t V) : indexable V :=
  CatalogBaseSequence.__init__ CatalogKeysSequence (OfCatalog self) None None.
Definition items_indexer (self : Catalog.t V) : indexable V :=
  CatalogBaseSequence.__init__ CatalogItemsSequence (OfCatalog self) None None.
Definition values_indexer (self : Catalog.t V) : indexable V :=
  CatalogBaseSequence.__init__ CatalogValuesSequence (OfCatalog self) None None.
End indexers.

(** ** Strings *)

(** Code points that [str.split()] treats as white space. *)
Definition isspace (c : ascii) : bool :=
  let n := N_of_ascii c in
  ((9 <=? n) && (n <=? 13) || (28 <=? n) && (n <=? 32)
   || (n =? 133) || (n =? 160))%N.

(** [str.lower] on one code point: A-Z and the upper-case letters of
    the Latin-1 supplement move up by 32. *)
Definition lower_char (c : ascii) : ascii :=
  let n := N_of_ascii c in
  if ((65 <=? n) && (n <=? 90)
      || (192 <=? n) && (n <=? 222) && negb (n =? 215))%N
  then ascii_of_N (n + 32)
  else c.

(** [s.lower()] *)
Fixpoint str_lower (s : string) : string :=
  match s with
  | EmptyString => EmptyString
  | String c s' => String (lower_char c) (str_lower s')
  end.

(** [s.split()]: the maximal runs of non-space code points, in order.
    [word] is the run being read. *)
Fixpoint str_split_from (word : string) (s : string) : list string :=
  match s with
  | EmptyString => if String.eqb word "" then [] else [word]
  | String c s' =>
      if isspace c then
        if String.eqb word "" then str_split_from "" s'
        else word :: str_split_from "" s'
      else str_split_from (word +:+ String c "") s'
  end.

Definition str_split (s : string) : list string := str_split_from "" s.

(** ** The walk over metadata *)

Fixpoint mvalue_size (v : mvalue) : nat :=
  match v with
  | MDict d => S (list_sum (map (λ kv : string * mvalue, mvalue_size kv.2) d))
  | _ => 1%nat
  end.

Definition mdict_size (d : dict mvalue) : nat :=
  list_sum (map (λ kv : string * mvalue, mvalue_size kv.2) d).

Definition inspect {A} (a : A) : {b | a = b} := exist _ a eq_refl.

(** The strings among the items of a sequence. *)
Definition str_items (l : list mvalue) : list string :=
  omap (λ item, match item with MStr s => Some s | _ => None end) l.

(** [walk_string_values(tree, node)] with a [node]. A mapping is walked
    key by key, each key looked up again in the mapping. *)
Equations? walk_string_values_at (tree : dict mvalue) (node : string)
  : result (list string) by wf (mdict_size tree) lt :=
  walk_string_values_at tree node with inspect (dict_getitem tree node) := {
    | exist _ (Err e) _ => Err e
    | exist _ (Ok (MStr value)) _ => Ok [value]
    | exist _ (Ok (MDict value)) H =>
        strs ← for_each (λ kv : string * mvalue, walk_string_values_at value kv.1) value;
        Ok (List.concat strs)
    | exist _ (Ok (MList value)) _ => Ok (str_items value)
    | exist _ (Ok MOther) _ => Ok [] }.
Proof.
  clear walk_string_values_at.
  induction tree as [|[k w] tree IH]; simpl in H; [done|].
  unfold mdict_size in *; simpl.
  destruct (String.eqb k node).
  - injection H as ->.
    change (mvalue_size (MDict value)) with (S (mdict_size value)).
    unfold mdict_size. lia.
  - specialize (IH H). lia.
Qed.

(** [walk_string_values(tree)] *)
Definition walk_string_values (tree : dict mvalue) : result (list string) :=
  strs ← for_each (walk_string_values_at tree) (dict_keys tree);
  Ok (List.concat strs).

(** ** Objects *)

(** A reference to an object. *)
Abbreviation loc := nat (only parsing).

(** Modelled from the spec: the data sources of
    catalog_server/datasources.py are not among the sources. By section
    6 a leaf value is opaque but for its metadata. *)
Record DataSource : Type := { source_metadata : dict mvalue }.

(** The objects of a store: catalogs (of class [Catalog] or of a
    subclass, named by [cls]), whose values are references, and data
    sources. *)
Inductive object : Type :=
  | ObjCatalog (cls : string) (c : Catalog.t loc)
  | ObjSource (source : DataSource).

(** The store: the object at each reference. *)
Abbreviation heap := (list object) (only parsing).

(** A new object gets the next reference. *)
Definition alloc (h : heap) (o : object) : loc * heap :=
  (length h, h ++ [o]).

(** Modelled from the spec: [DictView] of catalog_server/queries.py is
    not among the sources; it is the read-only wrapper of section 4.1
    ("an immutable snapshot-view of the metadata"), which reads as the
    mapping it wraps. *)
Definition DictView (d : dict mvalue) : dict mvalue := d.

(** [value.metadata]. A reference to nothing has no attributes. *)
Definition metadata (h : heap) (value : loc) : result (dict mvalue) :=
  match h !! value with
  | Some (ObjCatalog _ c) => Ok (DictView (Catalog._metadata c))
  | Some (ObjSource source) => Ok (source_metadata source)
  | None => Err AttributeError
  end.

(** ** Queries *)

(** Modelled from the spec: the query classes of
    catalog_server/queries.py are not among the sources. A [Text] query
    carries "a free-text string" (section 3); a query of any other
    class is known by the name of its class only. *)
Inductive query : Set :=
  | Text (text : string)
  | OtherQuery (class_name : string).

(** The "query-shape identifier" of section 3: the class of the query. *)
Inductive query_shape : Set :=
  | TextShape
  | OtherShape (class_name : string).

#[global] Instance query_shape_eq_dec : EqDecision query_shape.
Proof. solve_decision. Defined.

Definition shape_id (q : query) : query_shape :=
  match q with
  | Text _ => TextShape
  | OtherQuery class_name => OtherShape class_name
  end.

(** [query.text] *)
Definition query_text (q : query) : result string :=
  match q with
  | Text text => Ok text
  | OtherQuery _ => Err AttributeError
  end.

(** A handler gets the query and the catalog and returns a catalog; it
    may allocate. *)
Definition handler : Type := query -> loc -> heap -> result (loc * heap).

(** Modelled from the spec: [QueryTranslationRegistry] of
    catalog_server/queries.py is not among the sources. By section 4.4,
    [register] "inserts/overwrites the handler" of a shape, and dispatch
    "fails with UnsupportedQuery if absent, else invokes the handler and
    returns its result unchanged". *)
Module QueryTranslationRegistry.

Definition t : Type := list (query_shape * handler).

(** The latest handler registered for a shape is the one found. *)
Definition register (shape : query_shape) (f : handler) (registry : t) : t :=
  (shape, f) :: registry.

Fixpoint lookup (registry : t) (shape : query_shape) : option handler :=
  match registry with
  | [] => None
  | (s, f) :: registry' =>
      if decide (s = shape) then Some f else lookup registry' shape
  end.

Definition __call__ (registry : t) (q : query) (catalog : loc) (h : heap)
  : result (loc * heap) :=
  match lookup registry (shape_id q) with
  | Some f => f q catalog h
  | None => Err UnsupportedQuery
  end.

End QueryTranslationRegistry.

(** ** Full-text search *)

(** The set of the words of some strings, lower-cased. *)
Definition word_set (strs : list string) : gset string :=
  list_to_set (List.concat (map (λ s, str_split (str_lower s)) strs)).

(** The catalog behind a reference, with its class. *)
Definition as_catalog (h : heap) (l : loc) : result (string * Catalog.t loc) :=
  match h !! l with
  | Some (ObjCatalog cls c) => Ok (cls, c)
  | _ => Err AttributeError
  end.

(** One turn of the loop of [full_text_search]. *)
Definition full_text_search_step (h : heap) (query_words : gset string)
    (matches : dict loc) (item : string * loc) : result (dict loc) :=
  let '(key, value) := item in
  md ← metadata h value;
  strs ← walk_string_values md;
  let words := word_set strs in
  if negb (bool_decide (words ## query_words))
  then Ok (dict_setitem matches key value)
  else Ok matches.

Fixpoint full_text_search_loop (h : heap) (query_words : gset string)
    (matches : dict loc) (items : list (string * loc)) : result (dict loc) :=
  match items with
  | [] => Ok matches
  | item :: items' =>
      matches' ← full_text_search_step h query_words matches item;
      full_text_search_loop h query_words matches' items'
  end.

Definition full_text_search : handler := λ q catalog h,
  text ← query_text q;
  let query_words := word_set [text] in
  '(cls, c) ← as_catalog h catalog;
  items ← Catalog.items c;
  matches ← full_text_search_loop h query_words [] items;
  Ok (alloc h (ObjCatalog cls (Catalog.__init__ matches None))).

(** The registry of [Catalog] once the module is loaded:
    [Catalog.register_query(Text, full_text_search)]. *)
Definition Catalog_query_registry : QueryTranslationRegistry.t :=
  QueryTranslationRegistry.register TextShape full_text_search [].

(** [Catalog.search(self, query)] *)
Definition search (self : loc) (q : query) (h : heap) : result (loc * heap) :=
  QueryTranslationRegistry.__call__ Catalog_query_registry q self h.

(** ** Specification-side definitions *)

(** The string leaves of a metadata value as section 4.5 describes
    them: a string itself, the leaves of the values of a mapping in
    order, the strings directly in a sequence. *)
Fixpoint string_leaves (v : mvalue) : list string :=
  match v with
  | MStr s => [s]
  | MDict d => List.concat (map (λ kv : string * mvalue, string_leaves kv.2) d)
  | MList l => str_items l
  | MOther => []
  end.

Definition metadata_strings (md : dict mvalue) : list string :=
  List.concat (map (λ kv : string * mvalue, string_leaves kv.2) md).

(** Every mapping that the walk enters has distinct keys. *)
Fixpoint mvalue_wf (v : mvalue) : Prop :=
  match v with
  | MDict d =>
      NoDup (dict_keys d)
      ∧ foldr (λ (kv : string * mvalue) P, mvalue_wf kv.2 ∧ P) True d
  | _ => True
  end.

Definition mdict_wf (md : dict mvalue) : Prop := mvalue_wf (MDict md).

(** A well-formed store: mappings are real dicts and every value of a
    catalog is an object of the store. *)
Definition object_wf (h : heap) (o : object) : Prop :=
  match o with
  | ObjCatalog _ c =>
      dict_wf (Catalog._mapping c)
      ∧ Forall (λ kv : string * loc, (kv.2 < length h)%nat) (Catalog._mapping c)
      ∧ mdict_wf (Catalog._metadata c)
  | ObjSource source => mdict_wf (source_metadata source)
  end.

Definition heap_wf (h : heap) : Prop := Forall (object_wf h) h.

(** The word set of an entry: the words of the string leaves of the
    metadata of its value. *)
Definition entry_words (h : heap) (value : loc) : gset string :=
  match metadata h value with
  | Ok md => word_set (metadata_strings md)
  | Err _ => ∅
  end.

(** Every code point of [s] is white space. *)
Fixpoint all_space (s : string) : bool :=
  match s with
  | EmptyString => true
  | String c s' => isspace c && all_space s'
  end.

(** A start or stop that is present and negative. *)
Definition negative (x : option Z) : bool :=
  match x with
  | Some v => v <? 0
  | None => false
  end.

(** The other way to slice a view that section 4.3 allows: compose the
    new window with the view's own and make the view's ancestor the
    ancestor of the result. *)
Definition slice_eager {V} (cls : sequence_class) (ancestor : indexable V)
    (start : Z) (stop : option Z) (window : Z * option Z)
  : result (indexable V) :=
  '(start', stop') ← _compose_intervals (Some start, stop) (Some window.1, window.2);
  Ok (CatalogBaseSequence.__init__ cls ancestor (Some start') stop').

(** The positions from [start] up to [stop] (to the end when absent)
    of a list. *)
Definition window {A} (l : list A) (start : Z) (stop : option Z) : list A :=
  match stop with
  | None => drop (Z.to_nat start) l
  | Some stop => take (Z.to_nat stop - Z.to_nat start)%nat (drop (Z.to_nat start) l)
  end.

(** Two small catalogs over plain numbers, for concrete runs. *)
Definition catalog_a : Catalog.t nat :=
  Catalog.Build [("a", 10%nat)]%string [].

Definition catalog_abcd : Catalog.t nat :=
  Catalog.Build [("a", 10%nat); ("b", 11%nat); ("c", 12%nat); ("d", 13%nat)]%string [].

(** A store for concrete runs: two data sources and, at reference 2, a
    catalog of class [Catalog] that holds them. *)
Definition heap_ab : heap :=
  [ ObjSource {| source_metadata := [("fruit", MStr "apple")] |};
    ObjSource {| source_metadata := [("fruit", MStr "banana")] |};
    ObjCatalog "Catalog" (Catalog.Build [("a", 0%nat); ("b", 1%nat)] []) ]%string.

(** The entries that a [Text] query keeps: the word set of the entry
    and the word set of the text have a word in common. *)
Definition kept (h : heap) (text : string) (item : string * loc) : Prop :=
  entry_words h item.2 ∩ word_set [text] ≠ ∅.

#[global] Instance kept_dec h text item : Decision (kept h text item).
Proof. unfold kept. apply _. Defined.

(** ** A chain of views seen from its catalog *)

(** The catalog at the end of the chain of ancestors. *)
Fixpoint root {V} (A : indexable V) : Catalog.t V :=
  match A with
  | OfCatalog c => c
  | Sequence _ ancestor _ _ => root ancestor
  end.

(** The sum of the starts along the chain: the position in the catalog
    of position 0 of [A]. *)
Fixpoint offset {V} (A : indexable V) : Z :=
  match A with
  | OfCatalog _ => 0
  | Sequence _ ancestor start _ => offset ancestor + start
  end.

(** The smaller of two stops, an absent one being no bound. *)
Definition min_stop (a b : option Z) : option Z :=
  match a, b with
  | None, b => b
  | a, None => a
  | Some a, Some b => Some (Z.min a b)
  end.

(** A stop moved by [delta] positions. *)
Definition shift_stop (stop : option Z) (delta : Z) : option Z :=
  match stop with
  | Some t => Some (t + delta)
  | None => None
  end.

(** The smallest stop along the chain, as a position in the catalog. *)
Fixpoint bound {V} (A : indexable V) : option Z :=
  match A with
  | OfCatalog _ => None
  | Sequence _ ancestor _ stop =>
      min_stop (bound ancestor) (shift_stop stop (offset ancestor))
  end.

(** The end of the chain in the catalog: its bound, or the length of
    the catalog when that is smaller or there is no bound. *)
Definition upper {V} (A : indexable V) : Z :=
  match bound A with
  | Some b => Z.min b (Catalog.__len__ (root A))
  | None => Catalog.__len__ (root A)
  end.

(** The key of an item, as the element a keys view yields; the value
    of an item, as the element a values view yields. *)
Definition key_of {V} (e : element V) : element V :=
  match e with
  | Item key _ => Key key
  | e => e
  end.

Definition value_of {V} (e : element V) : element V :=
  match e with
  | Item _ value => Value value
  | e => e
  end.

(** The view [items_indexer[1:4]] of the catalog with four keys, for
    concrete runs on a chain. *)
Definition items_abcd_1_4 : indexable nat :=
  Sequence CatalogItemsSequence (items_indexer catalog_abcd) 1 (Some 4).

(** The metadata of the docstring of [walk_string_values]. *)
Definition metadata_doctest : dict mvalue :=
  [("a", MDict [("b", MDict [("c", MStr "apple"); ("d", MStr "banana")]);
                ("e", MList [MStr "cat"; MStr "dog"])]);
   ("f", MStr "elephant")]%string.

(** * Properties *)

(** ** Interval arithmetic *)

Section intervals.

Lemma slice_to_interval_value (index : slice) :
  _slice_to_interval index =
    if negative (slice_start index) || negative (slice_stop index)
    then Err NotImplementedError
    else Ok (default 0 (slice_start index), slice_stop index).
Proof.
  destruct index as [[s|] [t|] step]; unfold _slice_to_interval; simpl;
    repeat case_match; simpl in *; try done; lia.
Qed.

(** C6: [_slice_to_interval] raises [NotImplementedError] when the
    start or the stop of the slice is negative; otherwise it returns
    the start (0 when absent) and the stop as given (absent when
    absent). Slicing a view of any class goes through it: it raises
    the same, or gives the view over [self] with that window. *)
Theorem slice_to_interval_spec (index : slice) :
  _slice_to_interval index =
    (if negative (slice_start index) || negative (slice_stop index)
     then Err NotImplementedError
     else Ok (default 0 (slice_start index), slice_stop index))
  ∧ ∀ (V : Type) cls (ancestor : indexable V) start stop,
      let self := Sequence cls ancestor start stop in
      CatalogBaseSequence.__getitem__ self (ISlice index) =
        if negative (slice_start index) || negative (slice_stop index)
        then Err NotImplementedError
        else Ok (inr (Sequence cls self (default 0 (slice_start index))
                        (slice_stop index))).
Proof.
  split; [apply slice_to_interval_value|].
  intros V cls ancestor start stop self. unfold self. simpl.
  rewrite slice_to_interval_value.
  destruct (negative (slice_start index) || negative (slice_stop index));
    reflexivity.
Qed.

(** With a start in the outer window, [_compose_intervals] returns
    the sum of the starts and the stop by the four cases. *)
Lemma compose_intervals_start_present (a_start : Z) (a_stop b_start b_stop : option Z) :
  _compose_intervals (Some a_start, a_stop) (b_start, b_stop) =
    Ok (a_start + default 0 b_start,
        match a_stop, b_stop with
        | None, None => None
        | Some a_stop, None => Some a_stop
        | None, Some b_stop => Some (b_stop + a_start)
        | Some a_stop, Some b_stop => Some (Z.min a_stop (b_stop + a_start))
        end).
Proof.
  destruct a_stop, b_start, b_stop; simpl; rewrite ?Z.add_0_r; reflexivity.
Qed.

(** C5: with no start in the outer window and a stop in the inner
    one, [_compose_intervals] raises [TypeError] where the rule would
    give a stop: here the outer window is unbounded from 0 and the
    inner one is [None:5]. *)
Theorem compose_intervals_absent_start :
  _compose_intervals (None, None) (None, Some 5) = Err TypeError
  ∧ ∀ a_stop b_start b_stop,
      _compose_intervals (None, a_stop) (b_start, Some b_stop) = Err TypeError.
Proof.
  split; [reflexivity|]. intros [?|] [?|] ?; reflexivity.
Qed.

End intervals.

(** ** Loops and dicts *)

Section dicts.
Context {V : Type}.
Implicit Types (d : dict V) (key : string) (value : V).

Lemma for_each_ext {A B} (f : A -> result B) (g : A -> B) (xs : list A) :
  (∀ x, x ∈ xs -> f x = Ok (g x)) -> for_each f xs = Ok (map g xs).
Proof.
  induction xs as [|x xs IH]; intros Hf; simpl; [done|].
  rewrite Hf by left. simpl. rewrite IH; [done|].
  intros y Hy. apply Hf. by right.
Qed.

Lemma dict_getitem_head d key value :
  dict_getitem ((key, value) :: d) key = Ok value.
Proof. simpl. by rewrite String.eqb_refl. Qed.

Lemma dict_getitem_elem d key value :
  NoDup (dict_keys d) -> (key, value) ∈ d -> dict_getitem d key = Ok value.
Proof.
  induction d as [|[k v] d IH]; simpl; intros Hnd Hin.
  - by apply elem_of_nil in Hin.
  - apply NoDup_cons in Hnd as [Hk Hnd].
    apply elem_of_cons in Hin as [[= <- <-]|Hin].
    + by rewrite String.eqb_refl.
    + destruct (String.eqb_spec k key) as [->|_]; [|by apply IH].
      exfalso. apply Hk. unfold dict_keys.
      apply list_elem_of_fmap. by exists (key, value).
Qed.

(** Looking up the keys of some entries of a dict gives the entries. *)
Lemma for_each_getitem d (entries : list (string * V)) :
  NoDup (dict_keys d) -> entries ⊆ d ->
  for_each (λ key, value ← dict_getitem d key; Ok (key, value)) entries.*1
  = Ok entries.
Proof.
  intros Hnd.
  induction entries as [|[k v] entries IH]; intros Hsub; [done|].
  assert (Hrest : entries ⊆ d) by (intros x Hx; apply Hsub; by right).
  specialize (IH Hrest).
  rewrite fmap_cons. cbn [for_each fst].
  rewrite (dict_getitem_elem d k v); [|done|apply Hsub; by left].
  by rewrite IH.
Qed.

End dicts.

(** ** Catalog *)

Section catalog.
Context {V : Type}.
Implicit Types (C : Catalog.t V).

Lemma islice_window {A} (l : list A) (start : Z) (stop : option Z) :
  0 <= start <= sys_maxsize ->
  (∀ t, stop = Some t -> 0 <= t <= sys_maxsize) ->
  islice l (Some start) stop = Ok (window l start stop).
Proof.
  intros Hs Ht. unfold islice, window, islice_index_ok.
  destruct stop as [t|]; [specialize (Ht t eq_refl)|]; simpl.
  - replace ((0 <=? start) && (start <=? sys_maxsize)) with true by lia.
    replace ((0 <=? t) && (t <=? sys_maxsize)) with true by lia. done.
  - replace ((0 <=? start) && (start <=? sys_maxsize)) with true by lia. done.
Qed.

Lemma window_fmap {A B} (f : A -> B) (l : list A) start stop :
  window (f <$> l) start stop = f <$> window l start stop.
Proof. unfold window. destruct stop; by rewrite ?fmap_take, ?fmap_drop. Qed.

Lemma window_subseteq {A} (l : list A) start stop : window l start stop ⊆ l.
Proof.
  unfold window. destruct stop.
  - etrans; [apply subseteq_take|apply subseteq_drop].
  - apply subseteq_drop.
Qed.

(** The slice of the items of a catalog is the window of its
    entries. *)
Lemma catalog_items_slice C (start : Z) (stop : option Z) :
  dict_wf (Catalog._mapping C) ->
  0 <= start <= sys_maxsize ->
  (∀ t, stop = Some t -> 0 <= t <= sys_maxsize) ->
  Catalog._items_slice C (Some start) stop
  = Ok (window (Catalog._mapping C) start stop).
Proof.
  intros [Hnd _] Hs Ht. unfold Catalog._items_slice, Catalog._keys_slice.
  rewrite islice_window by done. unfold dict_keys.
  rewrite window_fmap. cbn [mbind result_bind].
  apply for_each_getitem; [done|apply window_subseteq].
Qed.

Lemma catalog_keys_slice C (start : Z) (stop : option Z) :
  0 <= start <= sys_maxsize ->
  (∀ t, stop = Some t -> 0 <= t <= sys_maxsize) ->
  Catalog._keys_slice C (Some start) stop
  = Ok (window (Catalog.__iter__ C) start stop).
Proof. intros. unfold Catalog._keys_slice. by rewrite islice_window. Qed.

Lemma catalog_item_by_index C (i : Z) key value :
  dict_wf (Catalog._mapping C) -> 0 <= i ->
  Catalog._mapping C !! Z.to_nat i = Some (key, value) ->
  Catalog._item_by_index C i = Ok (key, value).
Proof.
  intros [Hnd Hmax] Hi Hlk.
  pose proof (lookup_lt_Some _ _ _ Hlk) as Hlt.
  unfold Catalog._item_by_index, Catalog.__len__.
  replace (i >=? Z.of_nat (length (Catalog._mapping C))) with false by lia.
  rewrite islice_window by (intros; simplify_eq; lia).
  unfold window, dict_keys.
  replace (Z.to_nat (1 + i) - Z.to_nat i)%nat with 1%nat by lia.
  rewrite <- fmap_drop, (drop_S _ _ _ Hlk). cbn.
  rewrite (dict_getitem_elem _ key value); [done|done|].
  by eapply list_elem_of_lookup_2.
Qed.

(** C7: for a non-negative [i], [_item_by_index] raises [IndexError]
    when [i] is at least the length of the catalog; below it, it
    returns the pair of the [i]-th key in iteration order and the
    value that [__getitem__] gives for that key. *)
Theorem item_by_index_spec C (i : Z) :
  dict_wf (Catalog._mapping C) -> 0 <= i ->
  (Catalog.__len__ C <= i -> Catalog._item_by_index C i = Err IndexError)
  ∧ (i < Catalog.__len__ C ->
     ∃ key value,
       Catalog.__iter__ C !! Z.to_nat i = Some key
       ∧ Catalog.__getitem__ C key = Ok value
       ∧ Catalog._item_by_index C i = Ok (key, value)).
Proof.
  intros Hwf Hi. split.
  - intros Hge. unfold Catalog._item_by_index.
    by replace (i >=? Catalog.__len__ C) with true by lia.
  - unfold Catalog.__len__. intros Hlt.
    destruct (lookup_lt_is_Some_2 (Catalog._mapping C) (Z.to_nat i))
      as [[key value] Hlk]; [lia|].
    exists key, value. split_and!.
    + unfold Catalog.__iter__, dict_keys. by rewrite list_lookup_fmap, Hlk.
    + apply dict_getitem_elem; [apply Hwf|by eapply list_elem_of_lookup_2].
    + by apply catalog_item_by_index.
Qed.

End catalog.

(** ** The built-in [len] *)

Section builtin_len.

Lemma len_check_Ok (n : Z) : 0 <= n <= sys_maxsize -> len_check n = Ok n.
Proof.
  intros Hn. unfold len_check.
  destruct (Z.ltb_spec n 0); [lia|].
  destruct (Z.gtb_spec n sys_maxsize); [lia|done].
Qed.

Lemma len_check_negative (n : Z) : n < 0 -> len_check n = Err ValueError.
Proof. intros Hn. unfold len_check. destruct (Z.ltb_spec n 0); [done|lia]. Qed.

Lemma len_check_inv (n m : Z) :
  len_check n = Ok m -> m = n ∧ 0 <= n <= sys_maxsize.
Proof.
  unfold len_check.
  destruct (Z.ltb_spec n 0); [done|].
  destruct (Z.gtb_spec n sys_maxsize); [done|].
  intros [= <-]. lia.
Qed.

End builtin_len.

(** ** Lazy views *)

Section views.
Context {V : Type}.
Implicit Types (C : Catalog.t V) (A : indexable V).

Import CatalogBaseSequence.

Lemma slice_to_interval_Ok (index : slice) s t :
  _slice_to_interval index = Ok (s, t) ->
  0 <= s ∧ t = slice_stop index ∧ ∀ t', t = Some t' -> 0 <= t'.
Proof.
  rewrite slice_to_interval_value. intros H.
  destruct index as [[s0|] [t0|] step]; simpl in *;
    repeat case_match; simplify_eq; split_and!; try done; try lia;
    intros ? [= <-]; lia.
Qed.

(** An integer index goes to the ancestor shifted by the start; the
    stop of the view plays no part. *)
Lemma getitem_int_delegates cls A start stop (i : Z) :
  __getitem__ (Sequence cls A start stop) (IInt i) =
    kv ← _item_by_index A (i + start); Ok (inl (project cls kv)).
Proof. reflexivity. Qed.

(** The length of a view over an ancestor of length [n]. *)
Lemma len_Sequence cls A start stop (n : Z) :
  len A = Ok n ->
  len (Sequence cls A start stop) =
    len_check (match stop with
               | Some stop => Z.min (n - start) (stop - start)
               | None => n - start
               end).
Proof.
  unfold len. cbn [__len__]. intros ->. cbn [mbind result_bind].
  destruct stop as [stop|]; [|done].
  destruct (Z.gtb_spec (n - start) (stop - start)); cbn [mbind result_bind].
  - by rewrite Z.min_r by lia.
  - by rewrite Z.min_l by lia.
Qed.

Lemma len_Sequence_Err cls A start stop e :
  len A = Err e -> len (Sequence cls A start stop) = Err e.
Proof. unfold len. cbn [__len__]. by intros ->. Qed.

Lemma len_OfCatalog C :
  dict_wf (Catalog._mapping C) -> len (OfCatalog C) = Ok (Catalog.__len__ C).
Proof.
  intros [_ Hmax]. unfold len. cbn [__len__ mbind result_bind].
  apply len_check_Ok. unfold Catalog.__len__. lia.
Qed.

Lemma len_indexer cls C :
  dict_wf (Catalog._mapping C) ->
  len (Sequence cls (OfCatalog C) 0 None) = Ok (Catalog.__len__ C).
Proof.
  intros Hwf. rewrite (len_Sequence _ _ _ _ _ (len_OfCatalog C Hwf)).
  rewrite Z.sub_0_r. apply len_check_Ok.
  destruct Hwf as [_ Hmax]. unfold Catalog.__len__. lia.
Qed.

(** The part of the length rule that the views keep: a slice of
    [keys_indexer] that starts within the catalog. *)
Lemma keys_indexer_slice_len C (a : Z) (b : option Z) :
  dict_wf (Catalog._mapping C) ->
  0 <= a <= Catalog.__len__ C ->
  (∀ b', b = Some b' -> a <= b') ->
  len (Sequence CatalogKeysSequence (keys_indexer C) a b)
  = Ok (Z.max 0 (Z.min (Catalog.__len__ C) (default (Catalog.__len__ C) b) - a)).
Proof.
  intros Hwf Ha Hb. unfold keys_indexer, __init__. cbn [default].
  rewrite (len_Sequence _ _ _ _ _ (len_indexer _ C Hwf)).
  assert (Hmax : Catalog.__len__ C <= sys_maxsize) by apply Hwf.
  destruct b as [b|]; cbn [default from_option id].
  - specialize (Hb b eq_refl). rewrite len_check_Ok by lia. f_equal. lia.
  - rewrite len_check_Ok by lia. f_equal. lia.
Qed.

(** A slice of [keys_indexer] that starts beyond the catalog has a
    negative [__len__], which [len] refuses. *)
Lemma keys_indexer_slice_len_beyond C (a : Z) (b : option Z) :
  dict_wf (Catalog._mapping C) ->
  Catalog.__len__ C < a ->
  (∀ b', b = Some b' -> a <= b') ->
  __len__ (Sequence CatalogKeysSequence (keys_indexer C) a b)
  = Ok (Catalog.__len__ C - a)
  ∧ len (Sequence CatalogKeysSequence (keys_indexer C) a b) = Err ValueError.
Proof.
  intros Hwf Ha Hb.
  assert (Hraw : __len__ (Sequence CatalogKeysSequence (keys_indexer C) a b)
                 = Ok (Catalog.__len__ C - a)).
  { pose proof (len_indexer CatalogKeysSequence C Hwf) as Hlen. unfold len in Hlen.
    unfold keys_indexer, __init__. cbn [default].
    change (__len__ (Sequence ?c ?anc a b))
      with (n ← __len__ anc ≫= len_check;
            let len_ := n - a in
            match b with
            | Some stop => if len_ >? stop - a then Ok (stop - a) else Ok len_
            | None => Ok len_
            end).
    rewrite Hlen. cbn [mbind result_bind].
    destruct b as [b|]; [|done]. specialize (Hb b eq_refl).
    destruct (Z.gtb_spec (Catalog.__len__ C - a) (b - a)); [lia|done]. }
  split; [done|]. unfold len. rewrite Hraw. cbn [mbind result_bind].
  apply len_check_negative. lia.
Qed.

Lemma length_window {T} (l : list T) (a b : Z) :
  0 <= a <= b -> b <= Z.of_nat (length l) ->
  Z.of_nat (length (window l a (Some b))) = b - a.
Proof.
  intros Hab Hb. unfold window. rewrite length_take, length_drop. lia.
Qed.

(** C1: for [0 <= p <= q <= len(C)] and [0 <= r <= s <= q - p], the
    view [C.items_indexer[p:q][r:s]] and the view
    [C.items_indexer[p+r : min(q, p+s)]] yield the same items in the
    same order, namely the entries of [C] at the positions from
    [p + r] up to [min(q, p+s)], and both have the length of that
    list. *)
Theorem items_indexer_slice_slice C (p q r s : Z) :
  dict_wf (Catalog._mapping C) ->
  0 <= p <= q -> q <= Catalog.__len__ C ->
  0 <= r <= s -> s <= q - p ->
  ∃ v1 v2 v12 items,
    __getitem__ (items_indexer C) (ISlice (Slice (Some p) (Some q) None))
      = Ok (inr v1)
    ∧ __getitem__ v1 (ISlice (Slice (Some r) (Some s) None)) = Ok (inr v2)
    ∧ __getitem__ (items_indexer C)
        (ISlice (Slice (Some (p + r)) (Some (Z.min q (p + s))) None))
      = Ok (inr v12)
    ∧ __iter__ v2 = Ok items
    ∧ __iter__ v12 = Ok items
    ∧ len v2 = Ok (Z.of_nat (length items))
    ∧ len v12 = Ok (Z.of_nat (length items))
    ∧ items = map (λ kv : string * V, Item kv.1 kv.2)
                (window (Catalog._mapping C) (p + r) (Some (Z.min q (p + s)))).
Proof.
  intros Hwf Hpq Hq Hrs Hs.
  pose proof Hwf as [_ Hmax]. unfold Catalog.__len__ in Hq.
  change (items_indexer C) with (Sequence CatalogItemsSequence (OfCatalog C) 0 None).
  set (v0 := Sequence CatalogItemsSequence (OfCatalog C) 0 None).
  set (v1 := Sequence CatalogItemsSequence v0 p (Some q)).
  set (v2 := Sequence CatalogItemsSequence v1 r (Some s)).
  set (v12 := Sequence CatalogItemsSequence v0 (p + r) (Some (Z.min q (p + s)))).
  set (entries := window (Catalog._mapping C) (p + r) (Some (Z.min q (p + s)))).
  exists v1, v2, v12, (map (λ kv : string * V, Item kv.1 kv.2) entries).
  assert (Hslice : ∀ A a b, 0 <= a -> 0 <= b ->
            __getitem__ (Sequence CatalogItemsSequence A 0 None)
              (ISlice (Slice (Some a) (Some b) None))
            = Ok (inr (Sequence CatalogItemsSequence
                         (Sequence CatalogItemsSequence A 0 None) a (Some b)))).
  { intros A a b Ha Hb. cbn [__getitem__]. rewrite slice_to_interval_value.
    cbn [slice_start slice_stop negative].
    destruct (Z.ltb_spec a 0); [lia|]. destruct (Z.ltb_spec b 0); [lia|]. done. }
  assert (Hentries : Catalog._items_slice C (Some (p + r)) (Some (Z.min q (p + s)))
                     = Ok entries).
  { apply catalog_items_slice; [done|lia|]. intros t [= <-]. lia. }
  assert (Hlen : Z.of_nat (length entries) = Z.min q (p + s) - (p + r)).
  { apply length_window; lia. }
  split_and!.
  - apply Hslice; lia.
  - unfold v1. cbn [__getitem__]. rewrite slice_to_interval_value.
    cbn [slice_start slice_stop negative].
    destruct (Z.ltb_spec r 0); [lia|]. destruct (Z.ltb_spec s 0); [lia|]. done.
  - apply Hslice; lia.
  - unfold v2, v1, v0.
    cbn [__iter__ _items_slice].
    repeat (rewrite compose_intervals_start_present;
            cbn [mbind result_bind default from_option id]).
    replace (0 + (p + r)) with (p + r) by lia.
    replace (Z.min q (s + p) + 0) with (Z.min q (p + s)) by lia.
    by rewrite Hentries.
  - unfold v12, v0.
    cbn [__iter__ _items_slice].
    repeat (rewrite compose_intervals_start_present;
            cbn [mbind result_bind default from_option id]).
    replace (0 + (p + r)) with (p + r) by lia.
    replace (Z.min q (p + s) + 0) with (Z.min q (p + s)) by lia.
    by rewrite Hentries.
  - rewrite length_map, Hlen. unfold v2.
    rewrite (len_Sequence _ _ _ _ (q - p)).
    + rewrite len_check_Ok by lia. f_equal. lia.
    + unfold v1, v0. rewrite (len_Sequence _ _ _ _ _ (len_indexer _ C Hwf)).
      unfold Catalog.__len__. rewrite len_check_Ok by lia. f_equal. lia.
  - rewrite length_map, Hlen. unfold v12, v0.
    rewrite (len_Sequence _ _ _ _ _ (len_indexer _ C Hwf)).
    unfold Catalog.__len__. rewrite len_check_Ok by lia. f_equal. lia.
  - done.
Qed.

(** C9: slicing a view with window [(p, q)], whose start [p] is not
    negative, by a request that gives the window [(s, t)] the way the
    code does (a new view over the view) and the way of [slice_eager]
    (a new view over the view's ancestor, with the composed window)
    give views with the same [len], the same result or exception at
    every integer index, and the same iteration. *)
Theorem slice_wrapping_eager_equiv cls A (p : Z) (q : option Z)
    (request : slice) (s : Z) (t : option Z) :
  0 <= p ->
  _slice_to_interval request = Ok (s, t) ->
  ∃ wrapped composed,
    __getitem__ (Sequence cls A p q) (ISlice request) = Ok (inr wrapped)
    ∧ slice_eager cls A p q (s, t) = Ok composed
    ∧ len wrapped = len composed
    ∧ (∀ i : Z, __getitem__ wrapped (IInt i) = __getitem__ composed (IInt i))
    ∧ __iter__ wrapped = __iter__ composed.
Proof.
  intros Hp Hreq. pose proof (slice_to_interval_Ok _ _ _ Hreq) as (Hs & _ & Ht).
  unfold slice_eager. cbn [__getitem__]. rewrite Hreq.
  rewrite compose_intervals_start_present.
  unfold __init__. cbn [mbind result_bind default from_option id fst snd].
  eexists _, _. split_and!; [reflexivity..| | |].
  - destruct (len A) as [n|e] eqn:HlenA.
    + assert (Hn : 0 <= n <= sys_maxsize).
      { unfold len in HlenA. destruct (__len__ A) as [m|e]; [|done].
        cbn [mbind result_bind] in HlenA.
        by apply len_check_inv in HlenA as [-> ?]. }
      pose proof (len_Sequence cls A p q n HlenA) as HV.
      rewrite (len_Sequence cls A (p + s) _ n HlenA).
      set (v := match q with
                | Some stop => Z.min (n - p) (stop - p)
                | None => n - p
                end) in HV.
      assert (Hv : v <= sys_maxsize) by (unfold v; destruct q; lia).
      destruct (Z.lt_ge_cases v 0) as [Hneg|Hpos].
      * rewrite len_check_negative in HV by done.
        rewrite (len_Sequence_Err _ _ _ _ _ HV).
        rewrite len_check_negative; [done|].
        unfold v in Hneg. destruct q as [q|], t as [t|]; lia.
      * rewrite len_check_Ok in HV by lia.
        rewrite (len_Sequence _ _ _ _ _ HV). f_equal.
        unfold v. destruct q as [q|], t as [t|]; try specialize (Ht t eq_refl); lia.
    + by rewrite !(len_Sequence_Err _ _ _ _ e);
        [| |apply len_Sequence_Err].
  - intros i. rewrite !getitem_int_delegates. cbn [_item_by_index].
    by replace (i + s + p) with (i + (p + s)) by lia.
  - destruct cls; cbn [__iter__ _items_slice _keys_slice];
      rewrite compose_intervals_start_present;
      cbn [mbind result_bind default from_option id]; reflexivity.
Qed.

(** C2: on a catalog with the one key "a", the view
    [keys_indexer[2:3]] has [__len__] -1, so [len] of it raises
    [ValueError] where the rule gives 0; iterating it yields
    nothing. *)
Theorem keys_indexer_len_beyond_end :
  let view := Sequence CatalogKeysSequence (keys_indexer catalog_a) 2 (Some 3) in
  __getitem__ (keys_indexer catalog_a) (ISlice (Slice (Some 2) (Some 3) None))
    = Ok (inr view)
  ∧ __len__ view = Ok (-1)
  ∧ len view = Err ValueError
  ∧ __iter__ view = Ok [].
Proof. vm_compute. done. Qed.

(** C3: on a catalog with the keys "a", "b", "c", "d", the view
    [items_indexer[:2]] has length 2 and yields two items, yet index
    3 of it is not refused: it returns the fourth item of the
    catalog. *)
Theorem getitem_int_beyond_stop :
  let view := Sequence CatalogItemsSequence (items_indexer catalog_abcd) 0 (Some 2) in
  __getitem__ (items_indexer catalog_abcd) (ISlice (Slice None (Some 2) None))
    = Ok (inr view)
  ∧ len view = Ok 2
  ∧ __iter__ view = Ok [Item "a" 10%nat; Item "b" 11%nat]
  ∧ __getitem__ view (IInt 3) = Ok (inl (Item "d" 13%nat)).
Proof. vm_compute. done. Qed.

End views.

(** ** Concrete runs of the views *)

Section view_runs.

Import CatalogBaseSequence.

Lemma catalog_abcd_wf : dict_wf (Catalog._mapping catalog_abcd).
Proof.
  split; [|vm_compute; discriminate].
  apply (bool_decide_unpack _). vm_compute. exact I.
Qed.

Lemma items_indexer_slice_slice_witness :
  dict_wf (Catalog._mapping catalog_abcd)
  ∧ 0 <= 1 <= 4 ∧ 4 <= Catalog.__len__ catalog_abcd ∧ 0 <= 1 <= 2 ∧ 2 <= 4 - 1
  ∧ ∃ v1 v2 v12 items,
      __getitem__ (items_indexer catalog_abcd)
        (ISlice (Slice (Some 1) (Some 4) None)) = Ok (inr v1)
      ∧ __getitem__ v1 (ISlice (Slice (Some 1) (Some 2) None)) = Ok (inr v2)
      ∧ __getitem__ (items_indexer catalog_abcd)
          (ISlice (Slice (Some (1 + 1)) (Some (Z.min 4 (1 + 2))) None))
        = Ok (inr v12)
      ∧ __iter__ v2 = Ok items
      ∧ __iter__ v12 = Ok items
      ∧ len v2 = Ok (Z.of_nat (length items))
      ∧ len v12 = Ok (Z.of_nat (length items))
      ∧ items = map (λ kv : string * nat, Item kv.1 kv.2)
                  (window (Catalog._mapping catalog_abcd) (1 + 1)
                     (Some (Z.min 4 (1 + 2)))).
Proof.
  assert (H4 : 4 <= Catalog.__len__ catalog_abcd) by (vm_compute; discriminate).
  split_and!; try assumption; try lia; [apply catalog_abcd_wf|].
  apply (items_indexer_slice_slice catalog_abcd 1 4 1 2);
    [apply catalog_abcd_wf|lia|assumption|lia|lia].
Defined.

Lemma item_by_index_spec_witness :
  dict_wf (Catalog._mapping catalog_abcd) ∧ 0 <= 2
  ∧ (Catalog.__len__ catalog_abcd <= 2 ->
     Catalog._item_by_index catalog_abcd 2 = Err IndexError)
  ∧ (2 < Catalog.__len__ catalog_abcd ->
     ∃ key value,
       Catalog.__iter__ catalog_abcd !! Z.to_nat 2 = Some key
       ∧ Catalog.__getitem__ catalog_abcd key = Ok value
       ∧ Catalog._item_by_index catalog_abcd 2 = Ok (key, value)).
Proof.
  split_and!; [apply catalog_abcd_wf|lia|..];
    apply (item_by_index_spec catalog_abcd 2); (apply catalog_abcd_wf || lia).
Defined.

Example item_by_index_2 :
  Catalog._item_by_index catalog_abcd 2 = Ok ("c"%string, 12%nat)
  ∧ Catalog._item_by_index catalog_abcd 4 = Err IndexError.
Proof. vm_compute. done. Qed.

Lemma slice_wrapping_eager_equiv_witness :
  0 <= 1
  ∧ _slice_to_interval (Slice None (Some 1) None) = Ok (0, Some 1)
  ∧ ∃ wrapped composed,
      __getitem__ (Sequence CatalogValuesSequence (OfCatalog catalog_abcd) 1 (Some 3))
        (ISlice (Slice None (Some 1) None)) = Ok (inr wrapped)
      ∧ slice_eager CatalogValuesSequence (OfCatalog catalog_abcd) 1 (Some 3)
          (0, Some 1) = Ok composed
      ∧ len wrapped = len composed
      ∧ (∀ i : Z, __getitem__ wrapped (IInt i) = __getitem__ composed (IInt i))
      ∧ __iter__ wrapped = __iter__ composed.
Proof.
  split; [lia|]. split; [reflexivity|].
  apply (slice_wrapping_eager_equiv CatalogValuesSequence (OfCatalog catalog_abcd)
           1 (Some 3) (Slice None (Some 1) None) 0 (Some 1)); [lia|reflexivity].
Defined.

(** The end-to-end run of section 8: [keys_indexer[1:3]] of a catalog
    with the keys "a", "b", "c", "d" yields "b" and "c". *)
Example keys_indexer_1_3 :
  __iter__ (Sequence CatalogKeysSequence (keys_indexer catalog_abcd) 1 (Some 3))
  = Ok [Key "b"; Key "c"]%string.
Proof. vm_compute. reflexivity. Qed.

End view_runs.

(** ** The walk over metadata *)

Section walk.

Lemma walk_string_values_at_eq (tree : dict mvalue) (node : string) :
  walk_string_values_at tree node =
    match dict_getitem tree node with
    | Err e => Err e
    | Ok (MStr value) => Ok [value]
    | Ok (MDict value) =>
        strs ← for_each (λ kv : string * mvalue, walk_string_values_at value kv.1) value;
        Ok (List.concat strs)
    | Ok (MList value) => Ok (str_items value)
    | Ok MOther => Ok []
    end.
Proof.
  rewrite walk_string_values_at_equation_1. unfold inspect.
  enough (Hgen : ∀ r (H : dict_getitem tree node = r),
             walk_string_values_at_unfold_clause_1 tree node (r ↾ H) =
             match r with
             | Err e => Err e
             | Ok (MStr value) => Ok [value]
             | Ok (MDict value) =>
                 strs ← for_each
                   (λ kv : string * mvalue, walk_string_values_at value kv.1) value;
                 Ok (List.concat strs)
             | Ok (MList value) => Ok (str_items value)
             | Ok MOther => Ok []
             end) by apply Hgen.
  intros [[value|value|value|]|e] H; reflexivity.
Qed.

Lemma dict_getitem_Ok_elem {V} (d : dict V) key value :
  dict_getitem d key = Ok value -> (key, value) ∈ d.
Proof.
  induction d as [|[k v] d IH]; simpl; [done|].
  destruct (String.eqb_spec k key) as [->|_].
  - intros [= ->]. by left.
  - intros H. right. by apply IH.
Qed.

Lemma mdict_size_elem (d : dict mvalue) key value :
  (key, value) ∈ d -> (mvalue_size value <= mdict_size d)%nat.
Proof.
  unfold mdict_size.
  induction d as [|[k v] d IH]; intros Hin; [by apply elem_of_nil in Hin|].
  apply elem_of_cons in Hin as [[= <- <-]|Hin]; simpl; [lia|].
  specialize (IH Hin). lia.
Qed.

Lemma mdict_wf_elem (d : dict mvalue) key value :
  mdict_wf d -> (key, value) ∈ d -> mvalue_wf value.
Proof.
  intros [_ Hall]. revert Hall.
  induction d as [|[k v] d IH]; intros Hall Hin; [by apply elem_of_nil in Hin|].
  destruct Hall as [Hv Hall].
  apply elem_of_cons in Hin as [[= <- <-]|Hin]; [done|by apply IH].
Qed.

Lemma for_each_fmap {A B C} (f : B -> result C) (g : A -> B) (xs : list A) :
  for_each f (g <$> xs) = for_each (λ x, f (g x)) xs.
Proof.
  induction xs as [|x xs IH]; [done|].
  rewrite fmap_cons. cbn [for_each]. by rewrite IH.
Qed.

(** On a mapping with distinct keys all the way down, the walk from a
    key yields the string leaves of the value at the key. *)
Lemma walk_string_values_at_leaves (n : nat) :
  ∀ (tree : dict mvalue) (node : string) (value : mvalue),
    (mdict_size tree < n)%nat -> mdict_wf tree ->
    (node, value) ∈ tree ->
    walk_string_values_at tree node = Ok (string_leaves value).
Proof.
  induction n as [|n IH]; intros tree node value Hsize Hwf Hin; [lia|].
  rewrite walk_string_values_at_eq.
  rewrite (dict_getitem_elem tree node value); [|apply Hwf|done].
  pose proof (mdict_size_elem _ _ _ Hin) as Hle.
  pose proof (mdict_wf_elem _ _ _ Hwf Hin) as Hvalue.
  destruct value as [str|d|l|]; try reflexivity.
  rewrite (for_each_ext _ (λ kv : string * mvalue, string_leaves kv.2)).
  - reflexivity.
  - intros [k v] Hkv. cbn [fst snd]. apply IH; [|done|done].
    change (mvalue_size (MDict d)) with (S (mdict_size d)) in Hle. lia.
Qed.

(** [walk_string_values] yields the string leaves of the metadata. *)
Lemma walk_string_values_leaves (md : dict mvalue) :
  mdict_wf md -> walk_string_values md = Ok (metadata_strings md).
Proof.
  intros Hwf. unfold walk_string_values, dict_keys.
  rewrite for_each_fmap.
  rewrite (for_each_ext _ (λ kv : string * mvalue, string_leaves kv.2)).
  - reflexivity.
  - intros [k v] Hkv. cbn [fst snd].
    by apply (walk_string_values_at_leaves (S (mdict_size md))); [lia| |].
Qed.

(** The docstring of [walk_string_values]. *)
Example walk_string_values_doctest :
  walk_string_values
    [("a", MDict [("b", MDict [("c", MStr "apple"); ("d", MStr "banana")]);
                  ("e", MList [MStr "cat"; MStr "dog"])]);
     ("f", MStr "elephant")]%string
  = Ok ["apple"; "banana"; "cat"; "dog"; "elephant"]%string.
Proof. vm_compute. reflexivity. Qed.

End walk.

(** ** Strings *)

Section strings.

Lemma lower_char_space (c : ascii) : isspace c = true -> lower_char c = c.
Proof.
  destruct c as [[] [] [] [] [] [] [] []]; vm_compute; congruence.
Qed.

Lemma str_lower_all_space (s : string) :
  all_space s = true -> str_lower s = s.
Proof.
  induction s as [|c s IH]; simpl; [done|].
  intros [Hc Hs]%andb_prop. by rewrite lower_char_space, IH.
Qed.

Lemma str_split_all_space (s : string) :
  all_space s = true -> str_split s = [].
Proof.
  unfold str_split. induction s as [|c s IH]; simpl; [done|].
  intros [-> Hs]%andb_prop. by apply IH.
Qed.

(** A text of white space only has no words. *)
Lemma word_set_all_space (text : string) :
  all_space text = true -> word_set [text] = ∅.
Proof.
  intros Hsp. unfold word_set. simpl.
  by rewrite str_lower_all_space, str_split_all_space.
Qed.

End strings.

(** ** Full-text search *)

Section search.
Implicit Types (h : heap) (c : Catalog.t loc) (matches : dict loc).

Lemma dict_setitem_fresh {V} (d : dict V) key value :
  key ∉ dict_keys d -> dict_setitem d key value = d ++ [(key, value)].
Proof.
  induction d as [|[k v] d IH]; simpl; [done|].
  intros Hnotin. apply not_elem_of_cons in Hnotin as [Hne Hnotin].
  destruct (String.eqb_spec k key) as [->|_]; [done|].
  by rewrite IH.
Qed.

Lemma catalog_items c :
  dict_wf (Catalog._mapping c) -> Catalog.items c = Ok (Catalog._mapping c).
Proof.
  intros [Hnd _]. unfold Catalog.items, Catalog.__iter__, Catalog.__getitem__.
  by apply for_each_getitem.
Qed.

(** In a well-formed store every object has metadata, and the walk
    over it yields its string leaves. *)
Lemma metadata_walk h (value : loc) :
  heap_wf h -> (value < length h)%nat ->
  ∃ md, metadata h value = Ok md
        ∧ walk_string_values md = Ok (metadata_strings md)
        ∧ entry_words h value = word_set (metadata_strings md).
Proof.
  intros Hwf Hlt.
  destruct (lookup_lt_is_Some_2 h value Hlt) as [o Ho].
  pose proof (proj1 (Forall_lookup _ _) Hwf _ _ Ho) as Hobj.
  destruct o as [cls c|[md]]; simpl in Hobj.
  - exists (Catalog._metadata c). unfold entry_words, metadata. rewrite Ho.
    split_and!; [done| |done].
    apply walk_string_values_leaves, Hobj.
  - exists md. unfold entry_words, metadata. rewrite Ho. cbn [source_metadata].
    split_and!; [done| |done].
    by apply walk_string_values_leaves.
Qed.

(** The loop adds to [matches], in order, the items that are kept. *)
Lemma full_text_search_loop_filter h (text : string) (items : list (string * loc)) :
  heap_wf h ->
  Forall (λ kv : string * loc, (kv.2 < length h)%nat) items ->
  ∀ matches,
    NoDup (dict_keys (matches ++ items)) ->
    full_text_search_loop h (word_set [text]) matches items
    = Ok (matches ++ filter (kept h text) items).
Proof.
  intros Hwf. induction items as [|[key value] items IH]; intros Hall matches Hnd.
  - by rewrite filter_nil, app_nil_r.
  - apply Forall_cons in Hall as [Hvalue Hall].
    cbn [full_text_search_loop full_text_search_step].
    destruct (metadata_walk h value Hwf Hvalue) as (md & Hmd & Hwalk & Hwords).
    rewrite Hmd. cbn [mbind result_bind].
    rewrite Hwalk. cbn [mbind result_bind]. rewrite filter_cons.
    unfold dict_keys in Hnd. rewrite fmap_app, fmap_cons in Hnd.
    pose proof Hnd as Hnd'. apply NoDup_app in Hnd' as (_ & Hfresh & _).
    destruct (decide (kept h text (key, value))) as [Hkept|Hdrop].
    + rewrite bool_decide_eq_false_2.
      2:{ rewrite <- Hwords. intros Hdisj. apply Hkept.
          by apply disjoint_intersection_L. }
      cbn [negb mbind result_bind].
      rewrite dict_setitem_fresh.
      2:{ intros Hin. apply (Hfresh key Hin). by left. }
      rewrite IH; [by rewrite <- app_assoc|done|].
      unfold dict_keys. rewrite <- app_assoc, !fmap_app, fmap_cons. done.
    + rewrite bool_decide_eq_true_2.
      2:{ rewrite <- Hwords. apply disjoint_intersection_L.
          unfold kept in Hdrop. cbn [snd] in Hdrop.
          destruct (decide (entry_words h value ∩ word_set [text] = ∅)); [done|].
          by exfalso. }
      cbn [negb mbind result_bind].
      apply IH; [done|].
      unfold dict_keys. rewrite fmap_app.
      apply NoDup_app in Hnd as (Hm & Hdisj & Hi).
      apply NoDup_cons in Hi as [_ Hi].
      apply NoDup_app. split_and!; [done| |done].
      intros k Hk Hk'. apply (Hdisj k Hk). by right.
Qed.

(** What [full_text_search] returns for a [Text] query. *)
Lemma full_text_search_filter h (catalog : loc) cls c (text : string) :
  heap_wf h -> h !! catalog = Some (ObjCatalog cls c) ->
  full_text_search (Text text) catalog h
  = Ok (length h,
        h ++ [ObjCatalog cls
                (Catalog.Build (filter (kept h text) (Catalog._mapping c)) [])]).
Proof.
  intros Hwf Hc.
  pose proof (proj1 (Forall_lookup _ _) Hwf _ _ Hc) as (Hdict & Hvalues & _).
  unfold full_text_search, as_catalog. rewrite Hc.
  cbn [query_text mbind result_bind].
  rewrite catalog_items by done. cbn [mbind result_bind].
  rewrite (full_text_search_loop_filter h text _ Hwf Hvalues []);
    [|apply Hdict].
  reflexivity.
Qed.

Lemma search_text h (catalog : loc) (text : string) :
  search catalog (Text text) h = full_text_search (Text text) catalog h.
Proof. reflexivity. Qed.


(** C8: when [search] succeeds, every object of the store, the
    receiver among them, is after the call what it was before, and the
    catalog returned is at a reference that was not in use, so it is not
    the receiver. *)
Theorem search_frame h (self : loc) (q : query) (found : loc) h' :
  search self q h = Ok (found, h') ->
  h' !! self = h !! self
  ∧ (∀ (l : loc) o, h !! l = Some o -> h' !! l = Some o)
  ∧ h !! found = None
  ∧ found ≠ self.
Proof.
  unfold search, QueryTranslationRegistry.__call__.
  destruct q as [text|class_name]; [|discriminate].
  cbn [shape_id Catalog_query_registry QueryTranslationRegistry.register
       QueryTranslationRegistry.lookup].
  rewrite decide_True by done.
  unfold full_text_search, as_catalog, alloc. cbn [query_text mbind result_bind].
  destruct (h !! self) as [[cls c|md]|] eqn:Hself; try discriminate.
  cbn [mbind result_bind].
  destruct (Catalog.items c) as [items|e]; [|discriminate].
  cbn [mbind result_bind].
  destruct (full_text_search_loop h (word_set [text]) [] items) as [matches|e];
    [|discriminate].
  intros [= <- <-].
  pose proof (lookup_lt_Some _ _ _ Hself) as Hlt.
  split_and!.
  - by rewrite lookup_app_l.
  - intros l o Hl. rewrite lookup_app_l; [done|]. by eapply lookup_lt_Some.
  - by apply lookup_ge_None_2.
  - lia.
Qed.

(** A text without words keeps no entry. *)
Lemma kept_no_words h (text : string) (items : list (string * loc)) :
  word_set [text] = ∅ -> filter (kept h text) items = [].
Proof.
  intros Hempty. induction items as [|item items IH]; [done|].
  rewrite filter_cons, IH. rewrite decide_False; [done|].
  unfold kept. rewrite Hempty. intros Hne. apply Hne.
  apply intersection_empty_r_L.
Qed.

(** C10: on a catalog of a well-formed store, [search] with a [Text]
    query whose text is empty or all white space returns a new catalog
    with no entries, whatever the metadata of the values holds. *)
Theorem search_blank_text h (catalog : loc) cls c (text : string) :
  heap_wf h -> h !! catalog = Some (ObjCatalog cls c) ->
  all_space text = true ->
  word_set [text] = ∅
  ∧ search catalog (Text text) h
    = Ok (length h, h ++ [ObjCatalog cls (Catalog.Build [] [])]).
Proof.
  intros Hwf Hc Hsp. pose proof (word_set_all_space text Hsp) as Hempty.
  split; [done|].
  rewrite search_text, (full_text_search_filter h catalog cls c) by done.
  by rewrite kept_no_words.
Qed.

End search.

(** ** Concrete runs of the search *)

Section search_runs.

Lemma heap_ab_wf : heap_wf heap_ab.
Proof.
  unfold heap_wf, heap_ab.
  repeat apply Forall_cons_2; [| |split_and!|apply Forall_nil_2].
  - split; [apply NoDup_singleton|done].
  - split; [apply NoDup_singleton|done].
  - split; [|vm_compute; discriminate].
    apply (bool_decide_unpack _). vm_compute. exact I.
  - repeat apply Forall_cons_2; [cbn; lia..|apply Forall_nil_2].
  - split; [apply NoDup_nil_2|done].
Qed.


(** The end-to-end run of section 8: of the entries "a" with fruit
    "apple" and "b" with fruit "banana", the text "apple" keeps "a". *)
Example search_apple :
  search 2%nat (Text "apple") heap_ab
  = Ok (3%nat, heap_ab ++ [ObjCatalog "Catalog" (Catalog.Build [("a", 0%nat)]%string [])]).
Proof. vm_compute. reflexivity. Qed.

Lemma search_frame_witness :
  search 2%nat (Text "apple") heap_ab
  = Ok (3%nat, heap_ab ++ [ObjCatalog "Catalog" (Catalog.Build [("a", 0%nat)]%string [])])
  ∧ (heap_ab ++ [ObjCatalog "Catalog" (Catalog.Build [("a", 0%nat)]%string [])]) !! 2%nat
    = heap_ab !! 2%nat
  ∧ (∀ (l : loc) o, heap_ab !! l = Some o ->
       (heap_ab ++ [ObjCatalog "Catalog" (Catalog.Build [("a", 0%nat)]%string [])]) !! l
       = Some o)
  ∧ heap_ab !! 3%nat = None
  ∧ 3%nat ≠ 2%nat.
Proof.
  split; [vm_compute; reflexivity|].
  apply (search_frame heap_ab 2%nat (Text "apple") 3%nat). vm_compute. reflexivity.
Defined.

Lemma search_blank_text_witness :
  heap_wf heap_ab
  ∧ heap_ab !! 2%nat
    = Some (ObjCatalog "Catalog" (Catalog.Build [("a", 0%nat); ("b", 1%nat)]%string []))
  ∧ all_space "  " = true
  ∧ word_set ["  "%string] = ∅
  ∧ search 2%nat (Text "  ") heap_ab
    = Ok (length heap_ab, heap_ab ++ [ObjCatalog "Catalog" (Catalog.Build [] [])]).
Proof.
  split_and!; [apply heap_ab_wf|reflexivity|reflexivity|..];
    apply (search_blank_text heap_ab 2%nat "Catalog"
             (Catalog.Build [("a", 0%nat); ("b", 1%nat)]%string []) "  ");
    try apply heap_ab_wf; reflexivity.
Defined.

End search_runs.

(** * Further properties *)

(** ** Interval arithmetic *)

Section interval_algebra.

(** X1: composing three windows whose starts are present gives the
    same window whichever two are composed first. *)
Theorem compose_intervals_assoc (a0 b0 c0 : Z) (a1 b1 c1 : option Z) :
  (ab ← _compose_intervals (Some a0, a1) (Some b0, b1);
   _compose_intervals (Some ab.1, ab.2) (Some c0, c1))
  = (bc ← _compose_intervals (Some b0, b1) (Some c0, c1);
     _compose_intervals (Some a0, a1) (Some bc.1, bc.2)).
Proof.
  rewrite !compose_intervals_start_present. cbn [mbind result_bind fst snd].
  rewrite !compose_intervals_start_present. cbn [default from_option id].
  destruct a1, b1, c1; do 2 f_equal; try (f_equal; lia); lia.
Qed.

(** X2: the window composed from an outer window with a start and an
    inner window with a non-negative start lies inside the outer one:
    it starts no earlier, it stops no later than the outer stop, and it
    stops no later than the inner stop moved by the outer start; it is
    unbounded only when both are. *)
Theorem compose_intervals_within (a_start b_start : Z) (a_stop b_stop : option Z)
    (start : Z) (stop : option Z) :
  0 <= b_start ->
  _compose_intervals (Some a_start, a_stop) (Some b_start, b_stop) = Ok (start, stop) ->
  a_start <= start
  ∧ (∀ a, a_stop = Some a -> ∃ t, stop = Some t ∧ t <= a)
  ∧ (∀ b, b_stop = Some b -> ∃ t, stop = Some t ∧ t <= b + a_start)
  ∧ (stop = None <-> a_stop = None ∧ b_stop = None).
Proof.
  intros Hb. rewrite compose_intervals_start_present. cbn [default from_option id].
  intros [= <- <-]. split_and!.
  - lia.
  - intros a ->. destruct b_stop; eexists; (split; [reflexivity|lia]).
  - intros b ->. destruct a_stop; eexists; (split; [reflexivity|lia]).
  - destruct a_stop, b_stop; split; try done; intros [? ?]; done.
Qed.

End interval_algebra.

Lemma compose_intervals_within_witness :
  0 <= 1
  ∧ _compose_intervals (Some 2, Some 10) (Some 1, Some 20) = Ok (3, Some 10)
  ∧ 2 <= 3
  ∧ (∀ a, Some 10 = Some a -> ∃ t, Some 10 = Some t ∧ t <= a)
  ∧ (∀ b, Some 20 = Some b -> ∃ t, Some 10 = Some t ∧ t <= b + 2)
  ∧ (Some 10 = None <-> Some 10 = None ∧ Some 20 = None).
Proof.
  split; [lia|]. split; [reflexivity|].
  apply (compose_intervals_within 2 1 (Some 10) (Some 20) 3 (Some 10));
    [lia|reflexivity].
Defined.

(** ** A chain of views seen from its catalog *)

Section chains.
Context {V : Type}.
Implicit Types (C : Catalog.t V) (A : indexable V).

Import CatalogBaseSequence.

Lemma min_stop_shift (a b t : option Z) (d start : Z) :
  min_stop a
    (shift_stop
       match b, t with
       | None, None => None
       | Some b, None => Some b
       | None, Some t => Some (t + start)
       | Some b, Some t => Some (Z.min b (t + start))
       end d)
  = min_stop (min_stop a (shift_stop b d)) (shift_stop t (d + start)).
Proof.
  destruct a, b, t; cbn [min_stop shift_stop]; try done;
    apply (f_equal Some); lia.
Qed.

(** A slice of the items of a chain is a slice of the items of its
    catalog: the start moves by the offset of the chain and the stop is
    cut at its bound. *)
Lemma items_slice_chain A (s : Z) (t : option Z) :
  _items_slice A (Some s) t
  = Catalog._items_slice (root A) (Some (offset A + s))
      (min_stop (bound A) (shift_stop t (offset A))).
Proof.
  revert s t. induction A as [c|cls A IH start stop]; intros s t.
  - cbn [_items_slice root offset bound min_stop]. rewrite Z.add_0_l.
    destruct t; cbn [shift_stop]; by rewrite ?Z.add_0_r.
  - cbn [_items_slice root offset bound].
    rewrite compose_intervals_start_present.
    cbn [mbind result_bind default from_option id].
    rewrite IH, min_stop_shift. by rewrite Z.add_assoc.
Qed.

Lemma keys_slice_chain A (s : Z) (t : option Z) :
  _keys_slice A (Some s) t
  = Catalog._keys_slice (root A) (Some (offset A + s))
      (min_stop (bound A) (shift_stop t (offset A))).
Proof.
  revert s t. induction A as [c|cls A IH start stop]; intros s t.
  - cbn [_keys_slice root offset bound min_stop]. rewrite Z.add_0_l.
    destruct t; cbn [shift_stop]; by rewrite ?Z.add_0_r.
  - cbn [_keys_slice root offset bound].
    rewrite compose_intervals_start_present.
    cbn [mbind result_bind default from_option id].
    rewrite IH, min_stop_shift. by rewrite Z.add_assoc.
Qed.

Lemma item_by_index_chain A (i : Z) :
  _item_by_index A i = Catalog._item_by_index (root A) (i + offset A).
Proof.
  revert i. induction A as [c|cls A IH start stop]; intros i.
  - cbn [_item_by_index root offset]. by rewrite Z.add_0_r.
  - cbn [_item_by_index root offset]. rewrite IH. f_equal. lia.
Qed.

Lemma catalog_item_by_index_negative C (i : Z) :
  i < 0 -> Catalog._item_by_index C i = Err ValueError.
Proof.
  intros Hi. unfold Catalog._item_by_index, Catalog.__len__.
  destruct (Z.geb_spec i (Z.of_nat (length (Catalog._mapping C)))); [lia|].
  unfold islice, islice_index_ok.
  destruct (Z.leb_spec 0 i); [lia|]. reflexivity.
Qed.

(** X3: an integer index on a view of any depth goes to the catalog at
    the index plus the sum of the starts of the chain, and nothing else
    decides the outcome: at or beyond the length of the catalog it is an
    [IndexError], below 0 a [ValueError], and in between the projection
    of the entry of the catalog at that position. No stop of the chain
    takes part. *)
Theorem getitem_int_chain cls A (start : Z) (stop : option Z) (i : Z) :
  let view := Sequence cls A start stop in
  let j := i + offset view in
  dict_wf (Catalog._mapping (root view)) ->
  (Catalog.__len__ (root view) <= j ->
   __getitem__ view (IInt i) = Err IndexError)
  ∧ (j < 0 -> __getitem__ view (IInt i) = Err ValueError)
  ∧ (0 <= j < Catalog.__len__ (root view) ->
     ∃ kv, Catalog._mapping (root view) !! Z.to_nat j = Some kv
           ∧ __getitem__ view (IInt i) = Ok (inl (project cls kv))).
Proof.
  intros view j Hwf.
  assert (Hget : __getitem__ view (IInt i)
                 = kv ← Catalog._item_by_index (root view) j;
                   Ok (inl (project cls kv))).
  { unfold view at 1. rewrite getitem_int_delegates.
    change (_item_by_index A (i + start)) with (_item_by_index view i).
    by rewrite item_by_index_chain. }
  rewrite Hget. clear Hget. clearbody j. clearbody view. split_and!.
  - intros Hj. unfold Catalog._item_by_index.
    destruct (Z.geb_spec j (Catalog.__len__ (root view))); [done|lia].
  - intros Hj. by rewrite catalog_item_by_index_negative.
  - intros Hj. unfold Catalog.__len__ in Hj.
    destruct (lookup_lt_is_Some_2 (Catalog._mapping (root view)) (Z.to_nat j))
      as [[key value] Hkv]; [lia|].
    exists (key, value). split; [done|].
    by rewrite (catalog_item_by_index _ j key value) by (done || lia).
Qed.

(** X4: [Catalog._item_by_index] with a negative index raises
    [ValueError], whatever the catalog holds. *)
Theorem catalog_item_by_index_below_zero C (i : Z) :
  i < 0 -> Catalog._item_by_index C i = Err ValueError.
Proof. apply catalog_item_by_index_negative. Qed.

End chains.

(** ** Iteration, length and indexing of a chain *)

Section chain_iteration.
Context {V : Type}.
Implicit Types (C : Catalog.t V) (A : indexable V).

Import CatalogBaseSequence.

Lemma map_project_keys (entries : list (string * V)) :
  map Key entries.*1 = map (project CatalogKeysSequence) entries.
Proof. induction entries as [|[k v] entries IH]; [done|]. cbn. by rewrite <- IH. Qed.

(** Iterating a view yields the window of the entries of its catalog
    from its offset to its bound. *)
Lemma iter_chain_window cls A (start : Z) (stop : option Z) :
  let view := Sequence cls A start stop in
  dict_wf (Catalog._mapping (root view)) ->
  0 <= offset view <= sys_maxsize ->
  (∀ b, bound view = Some b -> 0 <= b <= sys_maxsize) ->
  __iter__ view
  = Ok (map (project cls)
          (window (Catalog._mapping (root view)) (offset view) (bound view))).
Proof.
  intros view Hwf Hoff Hbound. unfold view in *.
  cbn [root offset bound] in *.
  destruct cls; cbn [__iter__].
  - rewrite keys_slice_chain, catalog_keys_slice by done.
    cbn [mbind result_bind]. unfold Catalog.__iter__, dict_keys.
    by rewrite window_fmap, map_project_keys.
  - rewrite items_slice_chain, catalog_items_slice by done. done.
  - rewrite items_slice_chain, catalog_items_slice by done. done.
Qed.

Lemma len_nonneg A (n : Z) : len A = Ok n -> 0 <= n.
Proof.
  unfold len. destruct (__len__ A) as [m|e]; [|done].
  cbn [mbind result_bind]. intros [-> ?]%len_check_inv. lia.
Qed.

(** Whenever [len] of a chain succeeds, it is the distance from the
    offset of the chain to its end in the catalog. *)
Lemma len_chain A (n : Z) : len A = Ok n -> n = upper A - offset A.
Proof.
  revert n. induction A as [c|cls A IH start stop]; intros n Hlen.
  - unfold len in Hlen. cbn [__len__ mbind result_bind] in Hlen.
    apply len_check_inv in Hlen as [-> _].
    unfold upper. cbn [bound root offset]. lia.
  - destruct (len A) as [m|e] eqn:HlenA.
    + specialize (IH m eq_refl). pose proof (len_nonneg _ _ HlenA) as Hm.
      rewrite (len_Sequence _ _ _ _ _ HlenA) in Hlen.
      apply len_check_inv in Hlen as [-> Hrange].
      revert Hrange IH. unfold upper. cbn [bound root offset].
      destruct (bound A) as [b|], stop as [t|]; cbn [min_stop shift_stop];
        intros Hrange IH; lia.
    + by rewrite (len_Sequence_Err _ _ _ _ _ HlenA) in Hlen.
Qed.

Lemma length_window_upper {T} (l : list T) (a : Z) (b : option Z) :
  0 <= a ->
  a <= match b with
       | Some b => Z.min b (Z.of_nat (length l))
       | None => Z.of_nat (length l)
       end ->
  Z.of_nat (length (window l a b))
  = match b with
    | Some b => Z.min b (Z.of_nat (length l))
    | None => Z.of_nat (length l)
    end - a.
Proof.
  intros Ha Hb. unfold window. destruct b as [b|].
  - rewrite length_take, length_drop. lia.
  - rewrite length_drop. lia.
Qed.

Lemma lookup_window {T} (l : list T) (a : Z) (b : option Z) (i : Z) :
  0 <= a -> 0 <= i -> (∀ b', b = Some b' -> i < b' - a) ->
  window l a b !! Z.to_nat i = l !! Z.to_nat (i + a).
Proof.
  intros Ha Hi Hb. unfold window. destruct b as [b|].
  - specialize (Hb b eq_refl). rewrite lookup_take_lt by lia.
    rewrite lookup_drop. f_equal. lia.
  - rewrite lookup_drop. f_equal. lia.
Qed.

(** The hypotheses of [iter_chain_window] follow from a [len] that
    succeeds, a non-negative offset and a bound that [islice] accepts. *)
Lemma len_Ok_in_range cls A (start : Z) (stop : option Z) (n : Z) :
  let view := Sequence cls A start stop in
  dict_wf (Catalog._mapping (root view)) ->
  0 <= offset view ->
  (∀ b, bound view = Some b -> b <= sys_maxsize) ->
  len view = Ok n ->
  n = upper view - offset view
  ∧ 0 <= n
  ∧ 0 <= offset view <= sys_maxsize
  ∧ (∀ b, bound view = Some b -> 0 <= b <= sys_maxsize).
Proof.
  intros view [_ Hmax] Hoff Hbound Hlen.
  pose proof (len_chain _ _ Hlen) as Hn.
  pose proof (len_nonneg _ _ Hlen) as Hpos.
  clearbody view. unfold upper, Catalog.__len__ in *.
  destruct (bound view) as [b|].
  - specialize (Hbound b eq_refl). split_and!; try lia.
    intros ? [= <-]. lia.
  - split_and!; try lia. done.
Qed.

(** X5: iterating a view of any depth yields, projected by its class,
    the entries of the catalog from the offset of the view (the sum of
    the starts of its chain) up to its bound (the smallest stop of the
    chain, as a position in the catalog), provided [islice] accepts
    both. *)
Theorem iter_chain cls A (start : Z) (stop : option Z) :
  let view := Sequence cls A start stop in
  dict_wf (Catalog._mapping (root view)) ->
  0 <= offset view <= sys_maxsize ->
  (∀ b, bound view = Some b -> 0 <= b <= sys_maxsize) ->
  __iter__ view
  = Ok (map (project cls)
          (window (Catalog._mapping (root view)) (offset view) (bound view))).
Proof. apply iter_chain_window. Qed.

(** X6: whenever [len] of a view succeeds, iterating the view yields
    exactly that many elements, provided no start of the chain is
    negative enough to make the offset negative and the bound does not
    exceed [sys.maxsize]. *)
Theorem len_iter_agree cls A (start : Z) (stop : option Z) (n : Z) :
  let view := Sequence cls A start stop in
  dict_wf (Catalog._mapping (root view)) ->
  0 <= offset view ->
  (∀ b, bound view = Some b -> b <= sys_maxsize) ->
  len view = Ok n ->
  ∃ l, __iter__ view = Ok l ∧ Z.of_nat (length l) = n.
Proof.
  intros view Hwf Hoff Hbound Hlen.
  pose proof (len_Ok_in_range cls A start stop n Hwf Hoff Hbound Hlen)
    as (Hn & Hpos & Hoff' & Hbound').
  pose proof (iter_chain_window cls A start stop Hwf Hoff' Hbound') as Hiter.
  cbv zeta in *. fold view in Hn, Hpos, Hoff', Hbound', Hiter.
  clearbody view.
  eexists. split; [exact Hiter|].
  rewrite length_map, Hn. unfold upper, Catalog.__len__ in *.
  apply length_window_upper; [lia|]. destruct (bound view); lia.
Qed.

(** X7: under the same conditions, an integer index from 0 to below
    [len] of the view returns the element that iterating the view
    yields at that position. *)
Theorem getitem_int_iter_agree cls A (start : Z) (stop : option Z) (n i : Z) :
  let view := Sequence cls A start stop in
  dict_wf (Catalog._mapping (root view)) ->
  0 <= offset view ->
  (∀ b, bound view = Some b -> b <= sys_maxsize) ->
  len view = Ok n ->
  0 <= i < n ->
  ∃ l e, __iter__ view = Ok l
         ∧ l !! Z.to_nat i = Some e
         ∧ __getitem__ view (IInt i) = Ok (inl e).
Proof.
  intros view Hwf Hoff Hbound Hlen Hi.
  pose proof (len_Ok_in_range cls A start stop n Hwf Hoff Hbound Hlen)
    as (Hn & Hpos & Hoff' & Hbound').
  pose proof (iter_chain_window cls A start stop Hwf Hoff' Hbound') as Hiter.
  assert (Hget : __getitem__ view (IInt i)
                 = kv ← Catalog._item_by_index (root view) (i + offset view);
                   Ok (inl (project cls kv))).
  { unfold view at 1. rewrite getitem_int_delegates.
    change (_item_by_index A (i + start)) with (_item_by_index view i).
    by rewrite item_by_index_chain. }
  cbv zeta in *. fold view in Hn, Hpos, Hoff', Hbound', Hiter.
  clearbody view.
  assert (Hlt : (Z.to_nat (i + offset view) < length (Catalog._mapping (root view)))%nat).
  { unfold upper, Catalog.__len__ in Hn. destruct (bound view); lia. }
  destruct (lookup_lt_is_Some_2 _ _ Hlt) as [[key value] Hkv].
  eexists _, (project cls (key, value)). split_and!.
  - exact Hiter.
  - change (map ?f ?l) with (f <$> l).
    rewrite list_lookup_fmap, lookup_window, Hkv; [done|lia|lia|].
    intros b Hb. unfold upper in Hn. rewrite Hb in Hn. lia.
  - rewrite Hget.
    by rewrite (catalog_item_by_index _ _ key value) by (done || lia).
Qed.

End chain_iteration.

(** ** The three classes of views and the whole-catalog views *)

Section view_classes.
Context {V : Type}.
Implicit Types (C : Catalog.t V) (A : indexable V).

Import CatalogBaseSequence.

Lemma dict_getitem_present (d : dict V) (key : string) :
  key ∈ dict_keys d -> ∃ value, dict_getitem d key = Ok value.
Proof.
  unfold dict_keys. induction d as [|[k v] d IH]; intros Hin.
  - by apply elem_of_nil in Hin.
  - cbn. destruct (String.eqb_spec k key) as [->|Hne]; [by eexists|].
    rewrite fmap_cons in Hin. apply elem_of_cons in Hin as [Heq|Hin]; [|by apply IH].
    cbn in Heq. congruence.
Qed.

Lemma for_each_getitem_keys (d : dict V) (keys : list string) :
  keys ⊆ dict_keys d ->
  ∃ items,
    for_each (λ key, value ← dict_getitem d key; Ok (key, value)) keys = Ok items
    ∧ items.*1 = keys.
Proof.
  induction keys as [|key keys IH]; intros Hsub; [by exists []|].
  destruct (dict_getitem_present d key) as [value Hvalue]; [apply Hsub; by left|].
  destruct IH as (items & Hitems & Hkeys); [intros k Hk; apply Hsub; by right|].
  exists ((key, value) :: items). cbn [for_each]. rewrite Hvalue. cbn [mbind result_bind].
  rewrite Hitems. cbn [mbind result_bind]. split; [done|]. by rewrite fmap_cons, Hkeys.
Qed.

Lemma islice_subseteq {T} (l l' : list T) (start stop : option Z) :
  islice l start stop = Ok l' -> l' ⊆ l.
Proof.
  unfold islice. destruct (islice_index_ok start && islice_index_ok stop); [|done].
  destruct stop; intros [= <-].
  - etrans; [apply subseteq_take|apply subseteq_drop].
  - apply subseteq_drop.
Qed.

(** The keys of a slice of the items of a catalog are the slice of its
    keys, failures included. *)
Lemma catalog_keys_items_slice C (start stop : option Z) :
  Catalog._keys_slice C start stop
  = (λ items : list (string * V), items.*1) <$> Catalog._items_slice C start stop.
Proof.
  unfold Catalog._items_slice.
  destruct (Catalog._keys_slice C start stop) as [keys|e] eqn:Hkeys; [|done].
  cbn [mbind result_bind].
  destruct (for_each_getitem_keys (Catalog._mapping C) keys) as (items & -> & <-);
    [|done].
  by eapply islice_subseteq.
Qed.

Lemma iter_keys_values_of_items A (start : Z) (stop : option Z) :
  __iter__ (Sequence CatalogKeysSequence A start stop)
    = map key_of <$> __iter__ (Sequence CatalogItemsSequence A start stop)
  ∧ __iter__ (Sequence CatalogValuesSequence A start stop)
    = map value_of <$> __iter__ (Sequence CatalogItemsSequence A start stop).
Proof.
  cbn [__iter__]. rewrite keys_slice_chain, items_slice_chain.
  rewrite catalog_keys_items_slice.
  destruct (Catalog._items_slice _ _ _) as [items|e]; [|done].
  cbn [mbind result_bind fmap result_fmap]. split; f_equal.
  - induction items as [|[k v] items IH]; [done|]. cbn. by rewrite <- IH.
  - induction items as [|[k v] items IH]; [done|]. cbn. by rewrite <- IH.
Qed.

(** X8: over the same ancestor and with the same window, a keys view
    and a values view fail exactly when the items view fails, with the
    same exception, and otherwise yield the keys, respectively the
    values, of the items that the items view yields, in the same
    order. *)
Theorem iter_classes_agree A (start : Z) (stop : option Z) :
  __iter__ (Sequence CatalogKeysSequence A start stop)
    = map key_of <$> __iter__ (Sequence CatalogItemsSequence A start stop)
  ∧ __iter__ (Sequence CatalogValuesSequence A start stop)
    = map value_of <$> __iter__ (Sequence CatalogItemsSequence A start stop).
Proof. apply iter_keys_values_of_items. Qed.

(** X9: the views that a catalog hands out unsliced cover the whole
    catalog: [keys_indexer] yields its keys, [items_indexer] its
    entries, [values_indexer] its values, all in the order of the
    catalog, and [len] of each is [len] of the catalog. *)
Theorem indexers_enumerate C :
  dict_wf (Catalog._mapping C) ->
  __iter__ (keys_indexer C) = Ok (map Key (Catalog.__iter__ C))
  ∧ __iter__ (items_indexer C)
    = Ok (map (λ kv : string * V, Item kv.1 kv.2) (Catalog._mapping C))
  ∧ __iter__ (values_indexer C)
    = Ok (map (λ kv : string * V, Value kv.2) (Catalog._mapping C))
  ∧ len (keys_indexer C) = Ok (Catalog.__len__ C)
  ∧ len (items_indexer C) = Ok (Catalog.__len__ C)
  ∧ len (values_indexer C) = Ok (Catalog.__len__ C).
Proof.
  intros Hwf.
  assert (Hiter : ∀ cls,
            __iter__ (Sequence cls (OfCatalog C) 0 None)
            = Ok (map (project cls) (Catalog._mapping C))).
  { intros cls.
    rewrite (iter_chain_window cls (OfCatalog C) 0 None); [done|done| |done].
    cbn. unfold sys_maxsize. lia. }
  unfold keys_indexer, items_indexer, values_indexer, __init__.
  cbn [default from_option].
  split_and!; try (by apply len_indexer).
  - rewrite Hiter. unfold Catalog.__iter__, dict_keys. by rewrite map_project_keys.
  - by rewrite Hiter.
  - by rewrite Hiter.
Qed.

(** X10: slicing a view with no start and no stop gives a view that
    behaves like the view itself: same iteration, same [len], same
    result at every integer index. *)
Theorem slice_all_same cls A (start : Z) (stop step : option Z) :
  let view := Sequence cls A start stop in
  ∃ whole,
    __getitem__ view (ISlice (Slice None None step)) = Ok (inr whole)
    ∧ __iter__ whole = __iter__ view
    ∧ len whole = len view
    ∧ ∀ i : Z, __getitem__ whole (IInt i) = __getitem__ view (IInt i).
Proof.
  intros view. exists (Sequence cls view 0 None). split_and!.
  - reflexivity.
  - unfold view. destruct cls; cbn [__iter__ _items_slice _keys_slice];
      rewrite compose_intervals_start_present;
      cbn [mbind result_bind default from_option id];
      rewrite Z.add_0_r; by destruct stop.
  - destruct (len view) as [n|e] eqn:Hlen.
    + rewrite (len_Sequence _ _ _ _ _ Hlen). rewrite Z.sub_0_r.
      unfold len in Hlen. destruct (__len__ view) as [m|e]; [|done].
      cbn [mbind result_bind] in Hlen.
      apply len_check_inv in Hlen as [-> Hrange]. by apply len_check_Ok.
    + by rewrite (len_Sequence_Err _ _ _ _ _ Hlen).
  - intros i. unfold view. rewrite !getitem_int_delegates.
    cbn [_item_by_index]. by rewrite Z.add_0_r.
Qed.

(** X11: the step of a slice is never read: a slice with a step gives
    the same view, or the same exception, as the slice without it. *)
Theorem slice_step_ignored A (start stop step : option Z) :
  __getitem__ A (ISlice (Slice start stop step))
  = __getitem__ A (ISlice (Slice start stop None)).
Proof. destruct A; reflexivity. Qed.

Lemma for_each_length {T U} (f : T -> result U) (xs : list T) (ys : list U) :
  for_each f xs = Ok ys -> length ys = length xs.
Proof.
  revert ys. induction xs as [|x xs IH]; intros ys; cbn [for_each].
  - by intros [= <-].
  - destruct (f x) as [y|e]; [|done]. cbn [mbind result_bind].
    destruct (for_each f xs) as [ys'|e]; [|done]. cbn [mbind result_bind].
    intros [= <-]. cbn. by rewrite (IH ys').
Qed.

Lemma catalog_items_slice_length C (a : option Z) (b : Z) (items : list (string * V)) :
  Catalog._items_slice C a (Some b) = Ok items ->
  ∀ a', a = Some a' -> Z.of_nat (length items) <= Z.max 0 (b - a').
Proof.
  intros Hitems a' ->. unfold Catalog._items_slice, Catalog._keys_slice in Hitems.
  destruct (islice _ _ _) as [keys|e] eqn:Hkeys; [|done].
  cbn [mbind result_bind] in Hitems. apply for_each_length in Hitems.
  rewrite Hitems. unfold islice, islice_index_ok in Hkeys.
  destruct (Z.leb_spec 0 a'), (Z.leb_spec a' sys_maxsize),
    (Z.leb_spec 0 b), (Z.leb_spec b sys_maxsize); try done.
  cbn in Hkeys. injection Hkeys as <-. rewrite length_take. lia.
Qed.

(** X12: a view with a stop never yields more elements than the
    distance from its start to its stop, whatever its ancestor and
    whatever the catalog holds. *)
Theorem iter_length_le cls A (start stop : Z) (l : list (element V)) :
  __iter__ (Sequence cls A start (Some stop)) = Ok l ->
  Z.of_nat (length l) <= Z.max 0 (stop - start).
Proof.
  intros Hiter.
  assert (Hitems : ∃ items,
            _items_slice A (Some start) (Some stop) = Ok items
            ∧ length l = length items).
  { pose proof (iter_keys_values_of_items A start (Some stop)) as [Hk Hv].
    destruct cls; [rewrite Hk in Hiter|idtac|rewrite Hv in Hiter];
      cbn [__iter__] in Hiter;
      destruct (_items_slice A (Some start) (Some stop)) as [items|e];
      try done; cbn [mbind result_bind fmap result_fmap] in Hiter;
      injection Hiter as <-; exists items; by rewrite ?length_map. }
  destruct Hitems as (items & Hitems & ->).
  rewrite items_slice_chain in Hitems.
  destruct (bound A) as [b|]; cbn [min_stop shift_stop] in Hitems.
  - pose proof (catalog_items_slice_length _ _ _ _ Hitems _ eq_refl). lia.
  - pose proof (catalog_items_slice_length _ _ _ _ Hitems _ eq_refl). lia.
Qed.

End view_classes.

(** ** More on the walk and on full-text search *)

Section search_more.
Implicit Types (h : heap) (c : Catalog.t loc).

(** X13: on metadata whose mappings have distinct keys,
    [walk_string_values] never raises and yields, in order, the strings
    found as values at any depth of nested mappings and the strings
    that are directly items of a sequence; what is inside a sequence
    other than a string (a mapping, another sequence) is not entered. *)
Theorem walk_string_values_spec (md : dict mvalue) :
  mdict_wf md -> walk_string_values md = Ok (metadata_strings md).
Proof. apply walk_string_values_leaves. Qed.

Lemma lower_char_idem (ch : ascii) : lower_char (lower_char ch) = lower_char ch.
Proof. destruct ch as [[] [] [] [] [] [] [] []]; vm_compute; reflexivity. Qed.

Lemma str_lower_idem (s : string) : str_lower (str_lower s) = str_lower s.
Proof.
  induction s as [|ch s IH]; cbn [str_lower]; [done|].
  by rewrite lower_char_idem, IH.
Qed.

Lemma append_cons (ch : ascii) (s1 s2 : string) :
  String ch s1 +:+ s2 = String ch (s1 +:+ s2).
Proof. reflexivity. Qed.

Lemma append_nil (s : string) : "" +:+ s = s.
Proof. reflexivity. Qed.

Lemma str_lower_app (s1 s2 : string) :
  str_lower (s1 +:+ s2) = str_lower s1 +:+ str_lower s2.
Proof.
  induction s1 as [|ch s1 IH]; [done|].
  rewrite !append_cons. cbn [str_lower]. by rewrite IH, append_cons.
Qed.

Lemma str_split_from_app_space (word s1 s2 : string) :
  str_split_from word (s1 +:+ String " " s2)
  = str_split_from word s1 ++ str_split_from "" s2.
Proof.
  revert word. induction s1 as [|ch s1 IH]; intros word.
  - rewrite append_nil. cbn [str_split_from].
    change (isspace " ") with true. cbn iota.
    by destruct (String.eqb word "").
  - rewrite append_cons. cbn [str_split_from]. destruct (isspace ch).
    + destruct (String.eqb word ""); by rewrite IH.
    + apply IH.
Qed.

(** The words of two texts joined by a space are the words of the
    one and of the other. *)
Lemma word_set_join (t1 t2 : string) :
  word_set [t1 +:+ String " " t2] = word_set [t1] ∪ word_set [t2].
Proof.
  unfold word_set. cbn [map List.concat]. rewrite !app_nil_r.
  rewrite str_lower_app. cbn [str_lower].
  change (lower_char " ") with " "%char.
  unfold str_split. rewrite str_split_from_app_space.
  apply list_to_set_app_L.
Qed.

Lemma word_set_lower (text : string) : word_set [str_lower text] = word_set [text].
Proof. unfold word_set. cbn [map]. by rewrite str_lower_idem. Qed.

(** [full_text_search] reads the text of the query through its word
    set only. *)
Lemma full_text_search_word_set h (catalog : loc) (t1 t2 : string) :
  word_set [t1] = word_set [t2] ->
  search catalog (Text t1) h = search catalog (Text t2) h.
Proof.
  intros Heq. rewrite !search_text. unfold full_text_search.
  cbn [query_text mbind result_bind]. by rewrite Heq.
Qed.

(** X14: the case of the letters of the text of a query plays no
    part: the search for a text and the search for the text in lower
    case return the same. *)
Theorem search_case_insensitive h (catalog : loc) (text : string) :
  search catalog (Text (str_lower text)) h = search catalog (Text text) h.
Proof. apply full_text_search_word_set, word_set_lower. Qed.

Lemma entry_words_app h (o : object) (value : loc) :
  (value < length h)%nat -> entry_words (h ++ [o]) value = entry_words h value.
Proof. intros Hlt. unfold entry_words, metadata. by rewrite lookup_app_l. Qed.

Lemma object_wf_app h (o o' : object) : object_wf h o -> object_wf (h ++ [o']) o.
Proof.
  destruct o as [cls c|source]; [|done].
  intros (Hdict & Hvalues & Hmd). split_and!; [done| |done].
  eapply Forall_impl; [exact Hvalues|]. intros kv Hkv. cbn beta in *.
  rewrite length_app. lia.
Qed.

Lemma dict_wf_filter {T} (P : string * T -> Prop) `{!∀ x, Decision (P x)}
    (d : dict T) :
  dict_wf d -> dict_wf (filter P d).
Proof.
  intros [Hnd Hmax]. split.
  - unfold dict_keys in *. eapply sublist_NoDup; [exact Hnd|].
    apply fmap_sublist, sublist_filter.
  - pose proof (length_filter P d) as Hle. unfold dict in *.
    etrans; [|exact Hmax]. apply inj_le, Hle.
Qed.

(** The store after a search for a text is well formed. *)
Lemma heap_wf_after_search h cls c (text : string) :
  heap_wf h -> object_wf h (ObjCatalog cls c) ->
  heap_wf (h ++ [ObjCatalog cls
                   (Catalog.Build (filter (kept h text) (Catalog._mapping c)) [])]).
Proof.
  intros Hwf (Hdict & Hvalues & _). unfold heap_wf. apply Forall_app. split.
  - eapply Forall_impl; [exact Hwf|]. intros o. apply object_wf_app.
  - apply Forall_singleton. cbn [object_wf Catalog._mapping Catalog._metadata].
    split_and!.
    + by apply dict_wf_filter.
    + apply Forall_forall. intros kv [_ Hin]%list_elem_of_filter.
      pose proof (proj1 (Forall_forall _ _) Hvalues kv Hin) as Hlt. cbn beta in Hlt.
      rewrite length_app. lia.
    + split; [apply NoDup_nil_2|done].
Qed.

(** A successful search is a search for a text on a catalog. *)
Lemma search_Ok_inv h (self : loc) (q : query) (found : loc) h' :
  search self q h = Ok (found, h') ->
  ∃ text cls c, q = Text text ∧ h !! self = Some (ObjCatalog cls c).
Proof.
  unfold search, QueryTranslationRegistry.__call__.
  destruct q as [text|class_name]; [|discriminate].
  cbn [shape_id Catalog_query_registry QueryTranslationRegistry.register
       QueryTranslationRegistry.lookup].
  rewrite decide_True by done.
  unfold full_text_search, as_catalog. cbn [query_text mbind result_bind].
  destruct (h !! self) as [[cls c|md]|] eqn:Hself; try discriminate.
  intros _. by exists text, cls, c.
Qed.

(** X15: a successful search leaves a well-formed store well formed:
    the mapping of the new catalog is a real dict (distinct keys) and
    each of its values is an object of the store. *)
Theorem search_keeps_heap_wf h (self : loc) (q : query) (found : loc) h' :
  heap_wf h -> search self q h = Ok (found, h') -> heap_wf h'.
Proof.
  intros Hwf Hsearch.
  destruct (search_Ok_inv _ _ _ _ _ Hsearch) as (text & cls & c & -> & Hself).
  rewrite search_text, (full_text_search_filter h self cls c) in Hsearch by done.
  injection Hsearch as <- <-.
  apply heap_wf_after_search; [done|].
  apply (proj1 (Forall_lookup _ _) Hwf _ _ Hself).
Qed.

Lemma filter_all {T} (P : T -> Prop) `{!∀ x, Decision (P x)} (l : list T) :
  Forall P l -> filter P l = l.
Proof.
  induction 1 as [|x l Hx Hl IH]; [done|].
  by rewrite filter_cons, decide_True, IH.
Qed.

(** X16: searching the result of a search with the same text keeps
    every entry: the second result has the class, the entries and the
    metadata of the first. *)
Theorem search_idempotent h (catalog : loc) cls c (text : string) :
  heap_wf h -> h !! catalog = Some (ObjCatalog cls c) ->
  ∃ (found1 : loc) h1 (found2 : loc) h2 c1,
    search catalog (Text text) h = Ok (found1, h1)
    ∧ search found1 (Text text) h1 = Ok (found2, h2)
    ∧ h1 !! found1 = Some (ObjCatalog cls c1)
    ∧ h2 !! found2 = Some (ObjCatalog cls c1).
Proof.
  intros Hwf Hc.
  pose proof (proj1 (Forall_lookup _ _) Hwf _ _ Hc) as Hobj.
  pose proof Hobj as (_ & Hvalues & _).
  set (m1 := filter (kept h text) (Catalog._mapping c)).
  set (c1 := Catalog.Build m1 []).
  set (h1 := h ++ [ObjCatalog cls c1]).
  assert (Hwf1 : heap_wf h1) by by apply heap_wf_after_search.
  assert (Hfound1 : h1 !! length h = Some (ObjCatalog cls c1)).
  { unfold h1. by rewrite list_lookup_middle. }
  assert (Hm1 : filter (kept h1 text) m1 = m1).
  { apply filter_all, Forall_forall. intros kv [Hkept Hin]%list_elem_of_filter.
    pose proof (proj1 (Forall_forall _ _) Hvalues kv Hin) as Hlt. cbn beta in Hlt.
    unfold kept, h1. by rewrite entry_words_app. }
  exists (length h), h1, (length h1), (h1 ++ [ObjCatalog cls c1]), c1.
  split_and!.
  - rewrite search_text. by apply full_text_search_filter.
  - rewrite search_text, (full_text_search_filter h1 (length h) cls c1) by done.
    cbn [Catalog._mapping c1]. by rewrite Hm1.
  - done.
  - by rewrite list_lookup_middle.
Qed.

Lemma kept_join h (t1 t2 : string) (item : string * loc) :
  kept h (t1 +:+ String " " t2) item <-> kept h t1 item ∨ kept h t2 item.
Proof.
  unfold kept. rewrite word_set_join.
  set (X := entry_words h item.2). set (Y1 := word_set [t1]). set (Y2 := word_set [t2]).
  split.
  - intros Hne. apply set_choose_L in Hne as [w Hw].
    apply elem_of_intersection in Hw as [HwX Hw].
    apply elem_of_union in Hw as [Hw|Hw]; [left|right];
      intros Hempty; apply (not_elem_of_empty (C := gset string) w);
      rewrite <- Hempty; by apply elem_of_intersection.
  - intros [Hne|Hne]; apply set_choose_L in Hne as [w Hw];
      apply elem_of_intersection in Hw as [HwX Hw];
      intros Hempty; apply (not_elem_of_empty (C := gset string) w);
      rewrite <- Hempty; apply elem_of_intersection; (split; [done|]);
      apply elem_of_union; [by left|by right].
Qed.

(** X17: a text of several words asks for any of them: the search
    for two texts joined by a space keeps exactly the entries that the
    search for the one or the search for the other keeps. *)
Theorem search_words_union h (catalog : loc) cls c (t1 t2 : string) :
  heap_wf h -> h !! catalog = Some (ObjCatalog cls c) ->
  ∃ m12 m1 m2,
    search catalog (Text (t1 +:+ String " " t2)) h
      = Ok (length h, h ++ [ObjCatalog cls (Catalog.Build m12 [])])
    ∧ search catalog (Text t1) h
      = Ok (length h, h ++ [ObjCatalog cls (Catalog.Build m1 [])])
    ∧ search catalog (Text t2) h
      = Ok (length h, h ++ [ObjCatalog cls (Catalog.Build m2 [])])
    ∧ ∀ item, item ∈ m12 <-> item ∈ m1 ∨ item ∈ m2.
Proof.
  intros Hwf Hc. eexists _, _, _. split_and!.
  - rewrite search_text. by apply full_text_search_filter.
  - rewrite search_text. by apply full_text_search_filter.
  - rewrite search_text. by apply full_text_search_filter.
  - intros item. rewrite !list_elem_of_filter, kept_join. tauto.
Qed.

End search_more.

(** ** Concrete runs of the further properties *)

Section further_runs.

Import CatalogBaseSequence.

Lemma getitem_int_chain_witness :
  dict_wf (Catalog._mapping catalog_abcd)
  ∧ (Catalog.__len__ catalog_abcd <= 0 + 2 ->
     __getitem__ (Sequence CatalogItemsSequence items_abcd_1_4 1 (Some 2)) (IInt 0)
     = Err IndexError)
  ∧ (0 + 2 < 0 ->
     __getitem__ (Sequence CatalogItemsSequence items_abcd_1_4 1 (Some 2)) (IInt 0)
     = Err ValueError)
  ∧ (0 <= 0 + 2 < Catalog.__len__ catalog_abcd ->
     ∃ kv, Catalog._mapping catalog_abcd !! Z.to_nat (0 + 2) = Some kv
           ∧ __getitem__ (Sequence CatalogItemsSequence items_abcd_1_4 1 (Some 2))
               (IInt 0)
             = Ok (inl (project CatalogItemsSequence kv))).
Proof.
  split; [apply catalog_abcd_wf|].
  exact (getitem_int_chain CatalogItemsSequence items_abcd_1_4 1 (Some 2) 0
           catalog_abcd_wf).
Defined.

Lemma catalog_item_by_index_below_zero_witness :
  -1 < 0 ∧ Catalog._item_by_index catalog_abcd (-1) = Err ValueError.
Proof.
  split; [lia|]. apply (catalog_item_by_index_below_zero catalog_abcd (-1)). lia.
Defined.

Lemma items_abcd_in_range :
  (0 <= offset (Sequence CatalogItemsSequence items_abcd_1_4 1 (Some 2))
   <= sys_maxsize)
  ∧ ∀ b, bound (Sequence CatalogItemsSequence items_abcd_1_4 1 (Some 2)) = Some b ->
         0 <= b <= sys_maxsize.
Proof.
  split; [vm_compute; split; discriminate|].
  intros b [= <-]. vm_compute; split; discriminate.
Qed.

Lemma iter_chain_witness :
  dict_wf (Catalog._mapping catalog_abcd)
  ∧ (0 <= offset (Sequence CatalogItemsSequence items_abcd_1_4 1 (Some 2))
     <= sys_maxsize)
  ∧ (∀ b, bound (Sequence CatalogItemsSequence items_abcd_1_4 1 (Some 2)) = Some b ->
          0 <= b <= sys_maxsize)
  ∧ __iter__ (Sequence CatalogItemsSequence items_abcd_1_4 1 (Some 2))
    = Ok [Item "c"%string 12%nat].
Proof.
  split; [apply catalog_abcd_wf|].
  split; [exact (proj1 items_abcd_in_range)|].
  split; [exact (proj2 items_abcd_in_range)|].
  exact (iter_chain CatalogItemsSequence items_abcd_1_4 1 (Some 2)
           catalog_abcd_wf (proj1 items_abcd_in_range) (proj2 items_abcd_in_range)).
Defined.

Lemma items_abcd_bound_small :
  ∀ b, bound (Sequence CatalogItemsSequence items_abcd_1_4 1 (Some 2)) = Some b ->
       b <= sys_maxsize.
Proof. intros b Hb. by apply items_abcd_in_range. Qed.

Lemma len_iter_agree_witness :
  dict_wf (Catalog._mapping catalog_abcd)
  ∧ 0 <= offset (Sequence CatalogItemsSequence items_abcd_1_4 1 (Some 2))
  ∧ (∀ b, bound (Sequence CatalogItemsSequence items_abcd_1_4 1 (Some 2)) = Some b ->
          b <= sys_maxsize)
  ∧ len (Sequence CatalogItemsSequence items_abcd_1_4 1 (Some 2)) = Ok 1
  ∧ ∃ l, __iter__ (Sequence CatalogItemsSequence items_abcd_1_4 1 (Some 2)) = Ok l
         ∧ Z.of_nat (length l) = 1.
Proof.
  split; [apply catalog_abcd_wf|].
  split; [exact (proj1 (proj1 items_abcd_in_range))|].
  split; [exact items_abcd_bound_small|].
  split; [reflexivity|].
  apply (len_iter_agree CatalogItemsSequence items_abcd_1_4 1 (Some 2) 1
           catalog_abcd_wf (proj1 (proj1 items_abcd_in_range)) items_abcd_bound_small).
  reflexivity.
Defined.

Lemma getitem_int_iter_agree_witness :
  dict_wf (Catalog._mapping catalog_abcd)
  ∧ 0 <= offset (Sequence CatalogItemsSequence items_abcd_1_4 1 (Some 2))
  ∧ (∀ b, bound (Sequence CatalogItemsSequence items_abcd_1_4 1 (Some 2)) = Some b ->
          b <= sys_maxsize)
  ∧ len (Sequence CatalogItemsSequence items_abcd_1_4 1 (Some 2)) = Ok 1
  ∧ 0 <= 0 < 1
  ∧ ∃ l e, __iter__ (Sequence CatalogItemsSequence items_abcd_1_4 1 (Some 2)) = Ok l
           ∧ l !! Z.to_nat 0 = Some e
           ∧ __getitem__ (Sequence CatalogItemsSequence items_abcd_1_4 1 (Some 2))
               (IInt 0) = Ok (inl e).
Proof.
  split; [apply catalog_abcd_wf|].
  split; [exact (proj1 (proj1 items_abcd_in_range))|].
  split; [exact items_abcd_bound_small|].
  split; [reflexivity|]. split; [lia|].
  apply (getitem_int_iter_agree CatalogItemsSequence items_abcd_1_4 1 (Some 2) 1 0
           catalog_abcd_wf (proj1 (proj1 items_abcd_in_range)) items_abcd_bound_small);
    [reflexivity|lia].
Defined.

Lemma indexers_enumerate_witness :
  dict_wf (Catalog._mapping catalog_abcd)
  ∧ __iter__ (keys_indexer catalog_abcd)
    = Ok (map Key (Catalog.__iter__ catalog_abcd))
  ∧ __iter__ (items_indexer catalog_abcd)
    = Ok (map (λ kv : string * nat, Item kv.1 kv.2) (Catalog._mapping catalog_abcd))
  ∧ __iter__ (values_indexer catalog_abcd)
    = Ok (map (λ kv : string * nat, Value kv.2) (Catalog._mapping catalog_abcd))
  ∧ len (keys_indexer catalog_abcd) = Ok (Catalog.__len__ catalog_abcd)
  ∧ len (items_indexer catalog_abcd) = Ok (Catalog.__len__ catalog_abcd)
  ∧ len (values_indexer catalog_abcd) = Ok (Catalog.__len__ catalog_abcd).
Proof.
  split; [apply catalog_abcd_wf|].
  exact (indexers_enumerate catalog_abcd catalog_abcd_wf).
Defined.

Lemma iter_length_le_witness :
  __iter__ (Sequence CatalogItemsSequence items_abcd_1_4 1 (Some 2))
  = Ok [Item "c"%string 12%nat]
  ∧ Z.of_nat (length [Item "c"%string 12%nat]) <= Z.max 0 (2 - 1).
Proof.
  split; [reflexivity|].
  apply (iter_length_le CatalogItemsSequence items_abcd_1_4 1 2
           [Item "c"%string 12%nat]).
  reflexivity.
Defined.

Lemma metadata_doctest_wf : mdict_wf metadata_doctest.
Proof.
  unfold mdict_wf, metadata_doctest. cbn [mvalue_wf foldr snd]. unfold dict_keys.
  split_and!; try done; apply (bool_decide_unpack _); vm_compute; exact I.
Qed.

Lemma walk_string_values_spec_witness :
  mdict_wf metadata_doctest
  ∧ walk_string_values metadata_doctest
    = Ok ["apple"; "banana"; "cat"; "dog"; "elephant"]%string.
Proof.
  split; [apply metadata_doctest_wf|].
  exact (walk_string_values_spec metadata_doctest metadata_doctest_wf).
Defined.

Lemma search_keeps_heap_wf_witness :
  heap_wf heap_ab
  ∧ search 2%nat (Text "apple") heap_ab
    = Ok (3%nat, heap_ab ++ [ObjCatalog "Catalog" (Catalog.Build [("a", 0%nat)]%string [])])
  ∧ heap_wf (heap_ab ++ [ObjCatalog "Catalog" (Catalog.Build [("a", 0%nat)]%string [])]).
Proof.
  split_and!; [apply heap_ab_wf|vm_compute; reflexivity|].
  apply (search_keeps_heap_wf heap_ab 2%nat (Text "apple") 3%nat);
    [apply heap_ab_wf|vm_compute; reflexivity].
Defined.

Lemma search_idempotent_witness :
  heap_wf heap_ab
  ∧ heap_ab !! 2%nat
    = Some (ObjCatalog "Catalog" (Catalog.Build [("a", 0%nat); ("b", 1%nat)]%string []))
  ∧ ∃ (found1 : loc) h1 (found2 : loc) h2 c1,
      search 2%nat (Text "apple") heap_ab = Ok (found1, h1)
      ∧ search found1 (Text "apple") h1 = Ok (found2, h2)
      ∧ h1 !! found1 = Some (ObjCatalog "Catalog" c1)
      ∧ h2 !! found2 = Some (ObjCatalog "Catalog" c1).
Proof.
  split_and!; [apply heap_ab_wf|reflexivity|].
  apply (search_idempotent heap_ab 2%nat "Catalog"
           (Catalog.Build [("a", 0%nat); ("b", 1%nat)]%string []) "apple");
    [apply heap_ab_wf|reflexivity].
Defined.

Lemma search_words_union_witness :
  heap_wf heap_ab
  ∧ heap_ab !! 2%nat
    = Some (ObjCatalog "Catalog" (Catalog.Build [("a", 0%nat); ("b", 1%nat)]%string []))
  ∧ ∃ m12 m1 m2,
      search 2%nat (Text ("apple" +:+ String " " "banana")) heap_ab
        = Ok (length heap_ab, heap_ab ++ [ObjCatalog "Catalog" (Catalog.Build m12 [])])
      ∧ search 2%nat (Text "apple") heap_ab
        = Ok (length heap_ab, heap_ab ++ [ObjCatalog "Catalog" (Catalog.Build m1 [])])
      ∧ search 2%nat (Text "banana") heap_ab
        = Ok (length heap_ab, heap_ab ++ [ObjCatalog "Catalog" (Catalog.Build m2 [])])
      ∧ ∀ item, item ∈ m12 <-> item ∈ m1 ∨ item ∈ m2.
Proof.
  split_and!; [apply heap_ab_wf|reflexivity|].
  apply (search_words_union heap_ab 2%nat "Catalog"
           (Catalog.Build [("a", 0%nat); ("b", 1%nat)]%string []) "apple" "banana");
    [apply heap_ab_wf|reflexivity].
Defined.

End further_runs.

(** ** Edges of the catalog and of iteration *)

Section edges.
Context {V : Type}.
Implicit Types (C : Catalog.t V) (A : indexable V).

Import CatalogBaseSequence.

Lemma dict_getitem_Err (d : dict V) (key : string) e :
  dict_getitem d key = Err e -> e = KeyError ∧ key ∉ dict_keys d.
Proof.
  unfold dict_keys. induction d as [|[k v] d IH]; cbn.
  - intros [= <-]. split; [done|]. apply not_elem_of_nil.
  - destruct (String.eqb_spec k key) as [->|Hne]; [done|].
    intros [-> Hnotin]%IH. split; [done|].
    apply not_elem_of_cons. by split; [congruence|].
Qed.

(** X18: [C[key]] returns a value exactly for the keys that iterating
    [C] yields, and raises [KeyError] for every other key. *)
Theorem catalog_getitem_iter C (key : string) :
  (key ∈ Catalog.__iter__ C <-> ∃ value, Catalog.__getitem__ C key = Ok value)
  ∧ (key ∉ Catalog.__iter__ C <-> Catalog.__getitem__ C key = Err KeyError).
Proof.
  unfold Catalog.__iter__, Catalog.__getitem__. split; split.
  - apply dict_getitem_present.
  - intros [value Hvalue]. apply dict_getitem_Ok_elem in Hvalue.
    unfold dict_keys. apply list_elem_of_fmap. by exists (key, value).
  - intros Hnotin.
    destruct (dict_getitem (Catalog._mapping C) key) as [value|e] eqn:Hget.
    + exfalso. apply Hnotin. apply dict_getitem_Ok_elem in Hget.
      unfold dict_keys. apply list_elem_of_fmap. by exists (key, value).
    + by apply dict_getitem_Err in Hget as [-> _].
  - intros Hget. by apply dict_getitem_Err in Hget as [_ ?].
Qed.

(** X19: the two accessors of a catalog agree: for an index from 0 to
    below the length, the item at the index is the only item of the
    slice from the index to the next. *)
Theorem catalog_item_is_slice C (i : Z) :
  dict_wf (Catalog._mapping C) -> 0 <= i < Catalog.__len__ C ->
  ∃ kv, Catalog._item_by_index C i = Ok kv
        ∧ Catalog._items_slice C (Some i) (Some (i + 1)) = Ok [kv].
Proof.
  intros Hwf Hi. pose proof Hwf as [_ Hmax]. unfold Catalog.__len__ in Hi.
  destruct (lookup_lt_is_Some_2 (Catalog._mapping C) (Z.to_nat i))
    as [[key value] Hkv]; [lia|].
  exists (key, value). split; [apply catalog_item_by_index; [done|lia|done]|].
  rewrite catalog_items_slice; [|done|lia|intros t [= <-]; lia].
  unfold window. replace (Z.to_nat (i + 1) - Z.to_nat i)%nat with 1%nat by lia.
  by rewrite (drop_S _ _ _ Hkv).
Qed.

(** X20: iterating a view whose offset is at or beyond the end of the
    catalog and not above [sys.maxsize], and whose bound, when it has
    one, is within 0 and [sys.maxsize], yields nothing and raises
    nothing, unlike an integer index there. *)
Theorem iter_beyond_end cls A (start : Z) (stop : option Z) :
  let view := Sequence cls A start stop in
  dict_wf (Catalog._mapping (root view)) ->
  Catalog.__len__ (root view) <= offset view <= sys_maxsize ->
  (∀ b, bound view = Some b -> 0 <= b <= sys_maxsize) ->
  __iter__ view = Ok [].
Proof.
  intros view Hwf Hoff Hbound.
  assert (Hpos : 0 <= offset view <= sys_maxsize).
  { unfold Catalog.__len__ in Hoff. lia. }
  pose proof (iter_chain_window cls A start stop Hwf Hpos Hbound) as Hiter.
  cbv zeta in Hiter. fold view in Hiter. rewrite Hiter. clear Hiter.
  clearbody view. unfold Catalog.__len__ in Hoff. unfold window.
  destruct (bound view); rewrite drop_ge by lia; by rewrite ?take_nil.
Qed.

Lemma islice_bad_start {T} (l : list T) (start : Z) (stop : option Z) :
  start < 0 ∨ sys_maxsize < start -> islice l (Some start) stop = Err ValueError.
Proof.
  intros Hbad. unfold islice, islice_index_ok.
  destruct (Z.leb_spec 0 start), (Z.leb_spec start sys_maxsize); try lia; done.
Qed.

Lemma islice_bad_stop {T} (l : list T) (start : option Z) (stop : Z) :
  stop < 0 ∨ sys_maxsize < stop -> islice l start (Some stop) = Err ValueError.
Proof.
  intros Hbad. unfold islice. rewrite andb_comm. unfold islice_index_ok at 1.
  destruct (Z.leb_spec 0 stop), (Z.leb_spec stop sys_maxsize); try lia; done.
Qed.

(** X21: iterating a view raises [ValueError] when its offset is
    negative or above [sys.maxsize], or when its bound is: [islice]
    refuses such a start or stop. *)
Theorem iter_out_of_range cls A (start : Z) (stop : option Z) :
  let view := Sequence cls A start stop in
  (offset view < 0 ∨ sys_maxsize < offset view
   ∨ ∃ b, bound view = Some b ∧ (b < 0 ∨ sys_maxsize < b)) ->
  __iter__ view = Err ValueError.
Proof.
  intros view Hbad.
  assert (Hkeys : Catalog._keys_slice (root view) (Some (offset view)) (bound view)
                  = Err ValueError).
  { unfold Catalog._keys_slice.
    destruct Hbad as [Hlo|[Hhi|(b & -> & Hb)]].
    - apply islice_bad_start. by left.
    - apply islice_bad_start. by right.
    - by apply islice_bad_stop. }
  assert (Hitems : Catalog._items_slice (root view) (Some (offset view)) (bound view)
                   = Err ValueError).
  { unfold Catalog._items_slice. by rewrite Hkeys. }
  unfold view in *. cbn [root offset bound] in *.
  destruct cls; cbn [__iter__].
  - by rewrite keys_slice_chain, Hkeys.
  - by rewrite items_slice_chain, Hitems.
  - by rewrite items_slice_chain, Hitems.
Qed.

End edges.

Section edge_runs.

Import CatalogBaseSequence.

Lemma catalog_item_is_slice_witness :
  dict_wf (Catalog._mapping catalog_abcd)
  ∧ 0 <= 2 < Catalog.__len__ catalog_abcd
  ∧ ∃ kv, Catalog._item_by_index catalog_abcd 2 = Ok kv
          ∧ Catalog._items_slice catalog_abcd (Some 2) (Some (2 + 1)) = Ok [kv].
Proof.
  assert (H : 0 <= 2 < Catalog.__len__ catalog_abcd)
    by (vm_compute; split; discriminate || reflexivity).
  split; [apply catalog_abcd_wf|]. split; [exact H|].
  exact (catalog_item_is_slice catalog_abcd 2 catalog_abcd_wf H).
Defined.

Lemma keys_abcd_beyond :
  (Catalog.__len__ catalog_abcd
   <= offset (Sequence CatalogKeysSequence (keys_indexer catalog_abcd) 7 (Some 9))
   <= sys_maxsize)
  ∧ ∀ b, bound (Sequence CatalogKeysSequence (keys_indexer catalog_abcd) 7 (Some 9))
         = Some b -> 0 <= b <= sys_maxsize.
Proof.
  split; [vm_compute; split; discriminate|].
  intros b [= <-]. vm_compute; split; discriminate.
Qed.

Lemma iter_beyond_end_witness :
  dict_wf (Catalog._mapping catalog_abcd)
  ∧ (Catalog.__len__ catalog_abcd
     <= offset (Sequence CatalogKeysSequence (keys_indexer catalog_abcd) 7 (Some 9))
     <= sys_maxsize)
  ∧ (∀ b, bound (Sequence CatalogKeysSequence (keys_indexer catalog_abcd) 7 (Some 9))
          = Some b -> 0 <= b <= sys_maxsize)
  ∧ __iter__ (Sequence CatalogKeysSequence (keys_indexer catalog_abcd) 7 (Some 9))
    = Ok [].
Proof.
  split; [apply catalog_abcd_wf|].
  split; [exact (proj1 keys_abcd_beyond)|].
  split; [exact (proj2 keys_abcd_beyond)|].
  exact (iter_beyond_end CatalogKeysSequence (keys_indexer catalog_abcd) 7 (Some 9)
           catalog_abcd_wf (proj1 keys_abcd_beyond) (proj2 keys_abcd_beyond)).
Defined.

Lemma keys_abcd_huge_stop :
  offset (Sequence CatalogKeysSequence (keys_indexer catalog_abcd) 0 (Some (2 ^ 70))) < 0
  ∨ sys_maxsize
    < offset (Sequence CatalogKeysSequence (keys_indexer catalog_abcd) 0 (Some (2 ^ 70)))
  ∨ ∃ b, bound (Sequence CatalogKeysSequence (keys_indexer catalog_abcd) 0 (Some (2 ^ 70)))
         = Some b ∧ (b < 0 ∨ sys_maxsize < b).
Proof. right. right. eexists. split; [reflexivity|]. right. vm_compute. reflexivity. Qed.

Lemma iter_out_of_range_witness :
  (offset (Sequence CatalogKeysSequence (keys_indexer catalog_abcd) 0 (Some (2 ^ 70))) < 0
   ∨ sys_maxsize
     < offset (Sequence CatalogKeysSequence (keys_indexer catalog_abcd) 0 (Some (2 ^ 70)))
   ∨ ∃ b, bound (Sequence CatalogKeysSequence (keys_indexer catalog_abcd) 0 (Some (2 ^ 70)))
          = Some b ∧ (b < 0 ∨ sys_maxsize < b))
  ∧ __iter__ (Sequence CatalogKeysSequence (keys_indexer catalog_abcd) 0 (Some (2 ^ 70)))
    = Err ValueError.
Proof.
  split; [exact keys_abcd_huge_stop|].
  exact (iter_out_of_range CatalogKeysSequence (keys_indexer catalog_abcd) 0
           (Some (2 ^ 70)) keys_abcd_huge_stop).
Defined.

End edge_runs.
